(** * Maximum Similarity Counter (MSC.py): embedding and properties

    A shallow embedding of [src/MSC.py]: the classes [MSC] and
    [MSCMultiple] become the modules of the same names.

    - A Python [str] is a list of Unicode code points ([N]); [ord] is the
      injection into [Z], the type of Python [int] and of the entries of the
      integer numpy arrays.
    - A numpy [float64] is a real number or [NaN].  Sums and quotients of
      finite values are exact.  The one rounding that is kept is the
      underflow of [np.exp] (see [Np.exp]): it decides whether a score can
      be [0.0], and the differences of character codes reach it easily
      ([np.exp(-0.5 * 39 ** 2)] is already [0.0]).
    - Calls that can raise return an [outcome]; the only operation of the
      program with a failure mode is the subtraction of two numpy arrays,
      which raises [ValueError] on shapes that do not broadcast.
    - [verbose] only prints and is left out. *)

From Stdlib Require Import String Ascii.
From Stdlib Require Import List ZArith NArith Bool Arith Lia.
From Stdlib Require Import Reals Lra.
Import ListNotations.

Set Implicit Arguments.

(** ** Python strings *)

Definition char := N.
Definition str := list char.

(** A literal of the source, as code points (ASCII literals only). *)
Definition lit (s : string) : str :=
  List.map N_of_ascii (list_ascii_of_string s).

Definition SPACE : char := 32%N.
Definition NEWLINE : char := 10%N.
Definition NUL : char := 0%N.
Definition E_ACUTE : char := 233%N.
Definition E_GRAVE : char := 232%N.

Module Py.

Local Open Scope N_scope.

(** [str.lower]: the Unicode lowercase mapping, one code point at a time.
    It is written out on ASCII, on Latin-1 and on the two code points
    outside ASCII whose image contains an ASCII letter (U+0130, whose
    image is two code points, and the Kelvin sign U+212A).  Every other
    code point is kept: its image is neither whitespace, nor an ASCII
    letter or digit, nor one of the two folded accents, so that [clean]
    treats the code point and its image alike. *)
Definition lower_char (c : char) : str :=
  if (65 <=? c) && (c <=? 90) then [c + 32]
  else if (192 <=? c) && (c <=? 222) && negb (c =? 215) then [c + 32]
  else if c =? 304 then [105; 775]
  else if c =? 8490 then [107]
  else [c].

Definition lower (s : str) : str := flat_map lower_char s.

(** [s.replace(old, new)] for a one-character [old]. *)
Definition replace (old : char) (new : str) (s : str) : str :=
  flat_map (fun c => if c =? old then new else [c]) s.

(** [str.isspace] on one code point: the whitespace of [str.strip()]. *)
Definition isspace (c : char) : bool :=
  ((9 <=? c) && (c <=? 13)) || ((28 <=? c) && (c <=? 32))
  || (c =? 133) || (c =? 160) || (c =? 5760)
  || ((8192 <=? c) && (c <=? 8202))
  || (c =? 8232) || (c =? 8233) || (c =? 8239) || (c =? 8287)
  || (c =? 12288).

Fixpoint lstrip (s : str) : str :=
  match s with
  | c :: s' => if isspace c then lstrip s' else s
  | [] => []
  end.

Definition rstrip (s : str) : str := rev (lstrip (rev s)).

Definition strip (s : str) : str := rstrip (lstrip s).

(** [re.sub(' +', ' ', s)]: every maximal run of spaces becomes one. *)
Fixpoint collapse (s : str) : str :=
  match s with
  | c :: s' =>
      if c =? SPACE then
        match s' with
        | d :: _ => if d =? SPACE then collapse s' else c :: collapse s'
        | [] => [c]
        end
      else c :: collapse s'
  | [] => []
  end.

(** [s.split(" ")]: cut at every single space; never the empty list. *)
Fixpoint split (s : str) : list str :=
  match s with
  | [] => [[]]
  | c :: s' =>
      if c =? SPACE then [] :: split s'
      else match split s' with
           | w :: ws => (c :: w) :: ws
           | [] => [[c]]
           end
  end.

(** [sep.join(parts)]. *)
Fixpoint join (sep : str) (parts : list str) : str :=
  match parts with
  | [] => []
  | [p] => p
  | p :: ps => p ++ sep ++ join sep ps
  end.

End Py.

(** ** Exceptions *)

Inductive exn := ValueError.

Inductive outcome (A : Type) :=
| Ok (a : A)
| Raise (e : exn).
Arguments Raise {A} e.

Definition bind {A B} (m : outcome A) (k : A -> outcome B) : outcome B :=
  match m with
  | Ok a => k a
  | Raise e => Raise e
  end.

Notation "x <- m ;; k" := (bind m (fun x => k))
  (at level 61, m at next level, right associativity).

(** The body of a [for] loop run over a list, its results appended to a
    list that starts empty. *)
Fixpoint for_each {A B} (body : A -> outcome B) (l : list A) : outcome (list B) :=
  match l with
  | [] => Ok []
  | a :: l' => b <- body a ;; bs <- for_each body l' ;; Ok (b :: bs)
  end.

(** ** numpy *)

Inductive float64 :=
| Num (r : R)
| NaN.

Module Np.

Local Open Scope R_scope.

(** The least positive [float64] is [2^-1074]; a positive real below half
    of it rounds to [0.0]. *)
Definition underflow : R := / 2 ^ 1075.

(** [np.exp] on a [float64]: the exponential, and [0.0] where the
    exponential is below [underflow].  The arguments met here are
    [-0.5 * x ** 2] for an integer [x], none of which comes near the
    threshold (about [-745.13]): [-722.0] is above it and [-760.5] below. *)
Definition exp (x : R) : R :=
  if Rlt_dec (Rtrigo_def.exp x) underflow then 0 else Rtrigo_def.exp x.

(** [a - b] on one-dimensional integer arrays, with numpy's broadcasting:
    equal lengths, or one of the two of length one. *)
Definition sub (a b : list Z) : outcome (list Z) :=
  if (length a =? length b)%nat then
    Ok (List.map (fun p => (fst p - snd p)%Z) (combine a b))
  else if (length b =? 1)%nat then
    Ok (List.map (fun x => (x - hd 0%Z b)%Z) a)
  else if (length a =? 1)%nat then
    Ok (List.map (fun y => (hd 0%Z a - y)%Z) b)
  else Raise ValueError.

(** [np.sum] of an array of finite values. *)
Definition sum (l : list R) : R := fold_right Rplus 0 l.

(** [np.sum] of a list of [float64]: [nan] as soon as one entry is. *)
Fixpoint fsum (l : list float64) : float64 :=
  match l with
  | [] => Num 0
  | NaN :: _ => NaN
  | Num r :: l' =>
      match fsum l' with
      | Num t => Num (r + t)
      | NaN => NaN
      end
  end.

(** [x / n] for a [float64] [x] that is the sum of [n] values: with
    [n = 0] the sum is [0.0] and numpy's [0.0 / 0] is [nan] (a
    RuntimeWarning, no exception). *)
Definition div_len (x : float64) (n : nat) : float64 :=
  match x, n with
  | NaN, _ => NaN
  | Num _, O => NaN
  | Num r, _ => Num (r / INR n)
  end.

(** [np.mean] of a list of [float64]; [nan] on the empty list. *)
Definition mean (l : list float64) : float64 := div_len (fsum l) (length l).

End Np.

(** ** class MSC *)

Module MSC.

(** [np.exp(- 0.5 * x ** 2 / s ** 2)] on one entry of an integer array.
    The program only ever calls it with the default [s = 1]. *)
Definition kernel (x s : Z) : R :=
  Np.exp (- (1 / 2) * IZR (x ^ 2) / IZR (s ^ 2)).

(** [np.sum(self.kernel(X)) / len(X)], the kernel taken with its default
    [s = 1] on every entry of [X]. *)
Definition S (X : list Z) : float64 :=
  Np.div_len (Num (Np.sum (List.map (fun x => kernel x 1) X))) (length X).

Definition _ord (text : str) : list Z := List.map Z.of_N text.

Definition equalizeTexts (text1 text2 : str) : str * str :=
  let n1 := length (Py.split text1) in
  let n2 := length (Py.split text2) in
  if (n2 <? n1)%nat then
    let n := (n1 - n2)%nat in
    (text1, text2 ++ Py.join [SPACE] (repeat [NUL] n))
  else
    let n := (n2 - n1)%nat in
    (text1 ++ Py.join [SPACE] (repeat [NUL] n), text2).

Definition clean (text : str) : str :=
  let text := Py.lower text in
  let text := Py.replace E_ACUTE (lit "e") text in
  let text := Py.replace E_GRAVE (lit "e") text in
  let text := Py.replace NEWLINE (lit " ") text in
  let text := Py.strip text in
  let text := Py.collapse text in
  filter (fun letter =>
            ((97 <=? letter) && (letter <=? 122)
             || (48 <=? letter) && (letter <=? 57)
             || (letter =? SPACE))%N) text.

(** The body of the loop of [similarity] on one pair of aligned words:
    the score [s] that is appended to [sim]. *)
Definition similarity_body (words : str * str) : outcome float64 :=
  let (word1, word2) := words in
  let int1 := _ord word1 in
  let int2 := _ord word2 in
  let n1 := length int1 in
  let n2 := length int2 in
  let (int1, int2) :=
    if (n2 <? n1)%nat then (int1, int2 ++ repeat 0%Z (n1 - n2))
    else (int1 ++ repeat 0%Z (n2 - n1), int2) in
  z <- Np.sub int2 int1 ;;
  Ok (S z).

Definition similarity (text1 text2 : str) : outcome float64 :=
  let text1 := clean text1 in
  let text2 := clean text2 in
  let (text1, text2) := equalizeTexts text1 text2 in
  sim <- for_each similarity_body
           (combine (Py.split text1) (Py.split text2)) ;;
  Ok (Np.mean sim).

End MSC.

(** ** class MSCMultiple *)

Module MSCMultiple.

Definition similarity (fields1 fields2 : list str) : outcome float64 :=
  sim <- for_each (fun fields => MSC.similarity (fst fields) (snd fields))
           (combine fields1 fields2) ;;
  Ok (Np.mean sim).

End MSCMultiple.

(** ** Values computed on the way *)

(** The array [z = int2 - int1] of the loop body: the codes of [word2]
    minus those of [word1], the shorter of the two padded with zeros. *)
Definition word_diff (word1 word2 : str) : list Z :=
  let int1 := MSC._ord word1 in
  let int2 := MSC._ord word2 in
  List.map (fun p => (snd p - fst p)%Z)
    (combine (int1 ++ repeat 0%Z (length int2 - length int1))
             (int2 ++ repeat 0%Z (length int1 - length int2))).

(** The pairs of words that the loop of [MSC.similarity] visits. *)
Definition aligned_words (text1 text2 : str) : list (str * str) :=
  let (text1, text2) := MSC.equalizeTexts (MSC.clean text1) (MSC.clean text2) in
  combine (Py.split text1) (Py.split text2).

(** A score is [nan] or lies in the closed unit interval. *)
Definition unit_or_nan (v : float64) : Prop :=
  match v with
  | Num r => (0 <= r <= 1)%R
  | NaN => True
  end.

(** The value that [MSC.similarity] returns. *)
Definition text_score (text1 text2 : str) : float64 :=
  Np.mean (List.map (fun p => MSC.S (word_diff (fst p) (snd p)))
             (aligned_words text1 text2)).

(** The characters that the last loop of [MSC.clean] retains. *)
Definition kept (letter : char) : bool :=
  ((97 <=? letter) && (letter <=? 122)
   || (48 <=? letter) && (letter <=? 57)
   || (letter =? SPACE))%N.

(** A text starts clean: it is empty or its first character is no
    whitespace; it ends clean: it is empty or its last character is none. *)
Definition starts_clean (s : str) : Prop :=
  s = [] \/ exists c s', s = c :: s' /\ Py.isspace c = false.

Definition ends_clean (s : str) : Prop :=
  s = [] \/ exists s' c, s = s' ++ [c] /\ Py.isspace c = false.


(** * Properties *)

(** ** The error monad *)

Lemma for_each_total A B (body : A -> outcome B) (f : A -> B) (l : list A) :
  (forall a, In a l -> body a = Ok (f a)) ->
  for_each body l = Ok (List.map f l).
Proof.
  induction l as [|a l IH]; intros H; simpl; [reflexivity|].
  rewrite (H a (or_introl eq_refl)). simpl.
  rewrite IH by (intros; apply H; now right). reflexivity.
Qed.

Lemma for_each_ext A B (f g : A -> outcome B) (l : list A) :
  (forall a, In a l -> f a = g a) -> for_each f l = for_each g l.
Proof.
  induction l as [|a l IH]; intros H; simpl; [reflexivity|].
  rewrite (H a (or_introl eq_refl)).
  rewrite IH by (intros; apply H; now right). reflexivity.
Qed.

(** ** [np.exp] and the kernel *)

Section Kernel.

Local Open Scope R_scope.

Lemma underflow_pos : 0 < Np.underflow.
Proof. apply Rinv_0_lt_compat, pow_lt; lra. Qed.

Lemma underflow_lt_1 : Np.underflow < 1.
Proof.
  unfold Np.underflow. apply Rlt_le_trans with (/ 1); [|rewrite Rinv_1; lra].
  apply Rinv_1_lt_contravar; [lra|].
  apply Rlt_pow_R1; [lra|lia].
Qed.

Lemma np_exp_0 : Np.exp 0 = 1.
Proof.
  unfold Np.exp. rewrite exp_0.
  destruct (Rlt_dec 1 Np.underflow) as [H|H]; [|reflexivity].
  pose proof underflow_lt_1. lra.
Qed.

Lemma np_exp_nonneg x : 0 <= Np.exp x.
Proof.
  unfold Np.exp. destruct (Rlt_dec _ _); [lra|].
  left. apply exp_pos.
Qed.

Lemma np_exp_le_exp x : Np.exp x <= Rtrigo_def.exp x.
Proof.
  unfold Np.exp. destruct (Rlt_dec _ _); [|lra].
  left. apply exp_pos.
Qed.

Lemma exp_le_1 x : x <= 0 -> Rtrigo_def.exp x <= 1.
Proof.
  intros [H|H].
  - left. rewrite <- exp_0. now apply exp_increasing.
  - subst. rewrite exp_0. lra.
Qed.

Lemma np_exp_le_1 x : x <= 0 -> Np.exp x <= 1.
Proof.
  intros H. eapply Rle_trans; [apply np_exp_le_exp|now apply exp_le_1].
Qed.



Lemma np_exp_lt_1 x : x < 0 -> Np.exp x < 1.
Proof.
  intros H. eapply Rle_lt_trans; [apply np_exp_le_exp|].
  rewrite <- exp_0. now apply exp_increasing.
Qed.

(** *** Where the underflow falls

    [e] is enclosed between powers of rationals, compared in [Z]. *)

Lemma exp_mult_INR n x : Rtrigo_def.exp (INR n * x) = Rtrigo_def.exp x ^ n.
Proof.
  induction n as [|n IH].
  - rewrite Rmult_0_l. apply exp_0.
  - rewrite S_INR, Rmult_plus_distr_r, Rmult_1_l, exp_plus, IH.
    simpl. ring.
Qed.

Lemma pow_frac a b n :
  (IZR a / IZR b) ^ n = IZR (a ^ Z.of_nat n) / IZR (b ^ Z.of_nat n).
Proof.
  unfold Rdiv. now rewrite Rpow_mult_distr, pow_inv, !pow_IZR.
Qed.

Lemma frac_le a b c d :
  (0 < b)%Z -> (0 < d)%Z -> (a * d <= c * b)%Z ->
  IZR a / IZR b <= IZR c / IZR d.
Proof.
  intros Hb Hd H. apply IZR_lt in Hb, Hd. apply IZR_le in H.
  rewrite !mult_IZR in H.
  apply Rmult_le_reg_r with (IZR b * IZR d); [nra|].
  replace (IZR a / IZR b * (IZR b * IZR d)) with (IZR a * IZR d)
    by (field; lra).
  replace (IZR c / IZR d * (IZR b * IZR d)) with (IZR c * IZR b)
    by (field; lra).
  exact H.
Qed.

Lemma e_lower : 269 / 100 <= Rtrigo_def.exp 1.
Proof.
  replace 1 with (INR 64 * (1 / 64)) at 1
    by (rewrite INR_IZR_INZ; simpl; field).
  rewrite exp_mult_INR.
  apply Rle_trans with ((65 / 64) ^ 64).
  - rewrite pow_frac. apply frac_le; vm_compute; congruence.
  - apply pow_incr. pose proof (exp_ineq1_le (1 / 64)). lra.
Qed.

Lemma e_inv_lower : 364 / 1000 <= Rtrigo_def.exp (- 1).
Proof.
  replace (- 1) with (INR 64 * (- 1 / 64))
    by (rewrite INR_IZR_INZ; simpl; field).
  rewrite exp_mult_INR.
  apply Rle_trans with ((63 / 64) ^ 64).
  - rewrite pow_frac. apply frac_le; vm_compute; congruence.
  - apply pow_incr. pose proof (exp_ineq1_le (- 1 / 64)). lra.
Qed.

(** [exp(-760)] is below half the least positive [float64] ... *)
Lemma exp_760 : Rtrigo_def.exp (- 760) <= Np.underflow.
Proof.
  replace (- 760) with (- (INR 760 * 1))
    by (rewrite INR_IZR_INZ; simpl; ring).
  rewrite exp_Ropp, exp_mult_INR. unfold Np.underflow.
  apply Rinv_le_contravar; [apply pow_lt; lra|].
  apply Rle_trans with ((269 / 100) ^ 760).
  - replace (2 ^ 1075) with (IZR (2 ^ Z.of_nat 1075) / IZR 1)
      by (rewrite <- pow_IZR; field).
    rewrite pow_frac. apply frac_le; vm_compute; congruence.
  - apply pow_incr. pose proof e_lower. lra.
Qed.

(** ... and [exp(-722)] is not. *)
Lemma exp_722 : Np.underflow <= Rtrigo_def.exp (- 722).
Proof.
  replace (- 722) with (INR 722 * (- 1))
    by (rewrite INR_IZR_INZ; simpl; ring).
  rewrite exp_mult_INR. unfold Np.underflow.
  apply Rle_trans with ((364 / 1000) ^ 722).
  - replace (/ 2 ^ 1075) with (IZR 1 / IZR (2 ^ Z.of_nat 1075))
      by (rewrite <- pow_IZR; field; apply pow_nonzero; lra).
    rewrite pow_frac. apply frac_le; vm_compute; congruence.
  - apply pow_incr. pose proof e_inv_lower. lra.
Qed.

Lemma np_exp_underflow x : x < - 760 -> Np.exp x = 0.
Proof.
  intros H. unfold Np.exp.
  destruct (Rlt_dec _ _) as [_|Hn]; [reflexivity|].
  exfalso. apply Hn.
  apply Rlt_le_trans with (Rtrigo_def.exp (- 760)); [|apply exp_760].
  now apply exp_increasing.
Qed.

Lemma np_exp_positive x : - 722 <= x -> 0 < Np.exp x.
Proof.
  intros H. unfold Np.exp.
  destruct (Rlt_dec _ _) as [Hu|_]; [|apply exp_pos].
  exfalso. pose proof exp_722.
  assert (Rtrigo_def.exp (- 722) <= Rtrigo_def.exp x).
  { destruct H as [H|H]; [left; now apply exp_increasing|subst; lra]. }
  lra.
Qed.

End Kernel.

Section KernelZ.

Local Open Scope R_scope.

Lemma kernel_default x : MSC.kernel x 1 = Np.exp (- (IZR (x * x) / 2)).
Proof.
  unfold MSC.kernel. f_equal.
  change (1 ^ 2)%Z with 1%Z. rewrite Z.pow_2_r. field.
Qed.

Lemma kernel_even x s : MSC.kernel (- x) s = MSC.kernel x s.
Proof.
  unfold MSC.kernel. rewrite !Z.pow_2_r, Z.mul_opp_opp. reflexivity.
Qed.

Lemma kernel_0 : MSC.kernel 0 1 = 1.
Proof.
  rewrite kernel_default. simpl.
  replace (- (0 / 2)) with 0 by field. apply np_exp_0.
Qed.

Lemma sq_nonneg_R x : 0 <= IZR (x * x).
Proof. apply IZR_le. nia. Qed.

Lemma kernel_range x : 0 <= MSC.kernel x 1 <= 1.
Proof.
  rewrite kernel_default. split; [apply np_exp_nonneg|].
  apply np_exp_le_1. pose proof (sq_nonneg_R x). lra.
Qed.



Lemma kernel_lt_1 x : x <> 0%Z -> MSC.kernel x 1 < 1.
Proof.
  intros H. rewrite kernel_default. apply np_exp_lt_1.
  assert (IZR 0 < IZR (x * x)) by (apply IZR_lt; nia). lra.
Qed.

(** The kernel underflows from a difference of 39 on, and only then. *)
Lemma kernel_underflow x : (39 <= Z.abs x)%Z -> MSC.kernel x 1 = 0.
Proof.
  intros H. rewrite kernel_default. apply np_exp_underflow.
  assert (IZR 1521 <= IZR (x * x)) by (apply IZR_le; nia). lra.
Qed.

Lemma kernel_positive x : (Z.abs x <= 38)%Z -> 0 < MSC.kernel x 1.
Proof.
  intros H. rewrite kernel_default. apply np_exp_positive.
  assert (IZR (x * x) <= IZR 1444) by (apply IZR_le; nia). lra.
Qed.

End KernelZ.

(** ** Aggregation: [S] and [np.mean] *)

Section Aggregate.

Local Open Scope R_scope.

Lemma S_nil : MSC.S [] = NaN.
Proof. reflexivity. Qed.

Lemma S_cons x X :
  MSC.S (x :: X) =
  Num (Np.sum (List.map (fun x => MSC.kernel x 1) (x :: X))
       / INR (length (x :: X))).
Proof. reflexivity. Qed.

Lemma sum_range (l : list R) :
  Forall (fun r => 0 <= r <= 1) l -> 0 <= Np.sum l <= INR (length l).
Proof.
  induction 1 as [|r l Hr _ IH].
  - simpl. lra.
  - change (0 <= r + Np.sum l <= INR (S (length l))). rewrite S_INR. lra.
Qed.

Lemma div_range t n : (0 < n)%nat -> 0 <= t <= INR n -> 0 <= t / INR n <= 1.
Proof.
  intros Hn Ht. assert (0 < INR n) by now apply lt_0_INR.
  split.
  - apply Rmult_le_pos; [lra|]. left. now apply Rinv_0_lt_compat.
  - apply Rmult_le_reg_r with (INR n); [assumption|].
    unfold Rdiv. rewrite Rmult_assoc, Rinv_l by lra. lra.
Qed.

Lemma S_unit X : unit_or_nan (MSC.S X).
Proof.
  destruct X as [|x X]; [exact I|].
  rewrite S_cons. apply div_range; [simpl; lia|].
  rewrite <- (length_map (fun x => MSC.kernel x 1)).
  apply sum_range. apply Forall_map, Forall_forall.
  intros. apply kernel_range.
Qed.

Lemma S_opp X : MSC.S (List.map Z.opp X) = MSC.S X.
Proof.
  unfold MSC.S. rewrite length_map, map_map.
  do 3 f_equal. apply map_ext. intros. apply kernel_even.
Qed.

Lemma sum_repeat r n : Np.sum (repeat r n) = INR n * r.
Proof.
  induction n as [|n IH]; [simpl; ring|].
  change (r + Np.sum (repeat r n) = INR (S n) * r).
  rewrite S_INR, IH. ring.
Qed.

(** The score of an array of zeros is [1.0], unless the array is empty. *)
Lemma S_zeros n : (0 < n)%nat -> MSC.S (repeat 0%Z n) = Num 1.
Proof.
  intros Hn. destruct n as [|n]; [lia|].
  change (repeat 0%Z (S n)) with (0%Z :: repeat 0%Z n). rewrite S_cons.
  change (0%Z :: repeat 0%Z n) with (repeat 0%Z (S n)).
  rewrite map_repeat, kernel_0, sum_repeat, repeat_length.
  f_equal. field. apply not_0_INR. lia.
Qed.

Lemma mean_nil : Np.mean [] = NaN.
Proof. reflexivity. Qed.

Lemma fsum_unit l :
  Forall unit_or_nan l ->
  match Np.fsum l with
  | Num t => 0 <= t <= INR (length l)
  | NaN => True
  end.
Proof.
  induction 1 as [|v l Hv _ IH]; [simpl; lra|].
  destruct v as [r|]; [|exact I].
  change (length (Num r :: l)) with (S (length l)).
  simpl Np.fsum. destruct (Np.fsum l) as [t|]; [|exact I].
  rewrite S_INR. simpl in Hv. lra.
Qed.

Lemma mean_unit l : Forall unit_or_nan l -> unit_or_nan (Np.mean l).
Proof.
  intros H. apply fsum_unit in H. unfold Np.mean.
  destruct (Np.fsum l) as [t|]; [|exact I].
  destruct l as [|v l]; [exact I|].
  apply div_range; [simpl; lia|exact H].
Qed.

Lemma fsum_repeat r n : Np.fsum (repeat (Num r) n) = Num (INR n * r).
Proof.
  induction n as [|n IH]; [simpl; f_equal; ring|].
  change (repeat (Num r) (S n)) with (Num r :: repeat (Num r) n).
  simpl Np.fsum. rewrite IH, S_INR. f_equal. ring.
Qed.

Lemma mean_repeat r n : (0 < n)%nat -> Np.mean (repeat (Num r) n) = Num r.
Proof.
  intros Hn. unfold Np.mean. rewrite fsum_repeat, repeat_length.
  destruct n as [|n]; [lia|]. unfold Np.div_len.
  f_equal. field. apply not_0_INR. lia.
Qed.

Lemma mean_single r : Np.mean [Num r] = Num r.
Proof. apply (mean_repeat r (n := 1)). lia. Qed.

Lemma fsum_nan l : In NaN l -> Np.fsum l = NaN.
Proof.
  induction l as [|v l IH]; intros H; [destruct H|].
  destruct v as [r|]; [|reflexivity].
  destruct H as [H|H]; [discriminate|].
  simpl. now rewrite IH.
Qed.

Lemma mean_nan l : In NaN l -> Np.mean l = NaN.
Proof. intros H. unfold Np.mean. now rewrite fsum_nan. Qed.

End Aggregate.

(** ** The loop body: one pair of aligned words *)

Lemma map_combine_swap A B C (f : A * B -> C) (x : list A) (y : list B) :
  List.map (fun p => f (snd p, fst p)) (combine y x) = List.map f (combine x y).
Proof.
  revert y. induction x as [|a x IH]; intros [|b y]; simpl; try reflexivity.
  now rewrite IH.
Qed.

Lemma sub_same_length (a b : list Z) :
  length a = length b ->
  Np.sub a b = Ok (List.map (fun p => (fst p - snd p)%Z) (combine a b)).
Proof. intros H. unfold Np.sub. now rewrite H, Nat.eqb_refl. Qed.

Lemma word_diff_length word1 word2 :
  length (word_diff word1 word2) = Nat.max (length word1) (length word2).
Proof.
  unfold word_diff, MSC._ord.
  rewrite length_map, length_combine, !length_app, !repeat_length, !length_map.
  unfold char. lia.
Qed.

(** The subtraction of the loop body is always on arrays of one length, so
    it never raises, and the body returns the score of [word_diff]. *)
Lemma similarity_body_eq word1 word2 :
  MSC.similarity_body (word1, word2) = Ok (MSC.S (word_diff word1 word2)).
Proof.
  unfold MSC.similarity_body, word_diff.
  set (int1 := MSC._ord word1). set (int2 := MSC._ord word2).
  destruct (Nat.ltb_spec (length int2) (length int1)) as [H|H].
  - replace (length int2 - length int1)%nat with 0%nat by lia.
    simpl repeat. rewrite app_nil_r.
    rewrite sub_same_length by (rewrite length_app, repeat_length; lia).
    simpl bind. do 2 f_equal.
    exact (map_combine_swap (fun p => (snd p - fst p)%Z) _ _).
  - replace (length int1 - length int2)%nat with 0%nat by lia.
    simpl repeat. rewrite app_nil_r.
    rewrite sub_same_length by (rewrite length_app, repeat_length; lia).
    simpl bind. do 2 f_equal.
    exact (map_combine_swap (fun p => (snd p - fst p)%Z) _ _).
Qed.

Lemma word_diff_swap word1 word2 :
  word_diff word2 word1 = List.map Z.opp (word_diff word1 word2).
Proof.
  unfold word_diff. rewrite map_map.
  rewrite <- (map_combine_swap (fun p => (- (snd p - fst p))%Z)).
  apply map_ext. intros [x y]. simpl. lia.
Qed.

Lemma similarity_body_swap word1 word2 :
  MSC.similarity_body (word2, word1) = MSC.similarity_body (word1, word2).
Proof. now rewrite !similarity_body_eq, word_diff_swap, S_opp. Qed.

Lemma word_diff_same word : word_diff word word = repeat 0%Z (length word).
Proof.
  unfold word_diff. rewrite Nat.sub_diag. simpl repeat. rewrite app_nil_r.
  unfold MSC._ord. induction word as [|c w IH]; [reflexivity|].
  simpl. rewrite IH. f_equal. lia.
Qed.

Lemma word_diff_nil : word_diff [] [] = [].
Proof. reflexivity. Qed.

(** ** The whole of [similarity] *)

Lemma similarity_eq text1 text2 :
  MSC.similarity text1 text2 = Ok (text_score text1 text2).
Proof.
  unfold text_score, MSC.similarity, aligned_words.
  destruct (MSC.equalizeTexts _ _) as [t1 t2].
  rewrite for_each_total
    with (f := fun p => MSC.S (word_diff (fst p) (snd p))); [reflexivity|].
  intros [w1 w2] _. apply similarity_body_eq.
Qed.

Lemma split_not_nil s : Py.split s <> [].
Proof.
  destruct s as [|c s]; simpl; [discriminate|].
  destruct (c =? SPACE)%N; [discriminate|].
  destruct (Py.split s); discriminate.
Qed.

Lemma join_nil sep : Py.join sep (repeat [NUL] 0) = [].
Proof. reflexivity. Qed.

Lemma equalizeTexts_swap text1 text2 :
  MSC.equalizeTexts text2 text1 =
  (snd (MSC.equalizeTexts text1 text2), fst (MSC.equalizeTexts text1 text2)).
Proof.
  unfold MSC.equalizeTexts.
  set (n1 := length (Py.split text1)). set (n2 := length (Py.split text2)).
  destruct (Nat.ltb_spec n2 n1) as [H|H], (Nat.ltb_spec n1 n2) as [H'|H'];
    simpl; try reflexivity; try lia.
  replace (n1 - n2)%nat with 0%nat by lia.
  replace (n2 - n1)%nat with 0%nat by lia.
  simpl. now rewrite !app_nil_r.
Qed.

Lemma aligned_words_swap text1 text2 :
  aligned_words text2 text1 =
  List.map (fun p => (snd p, fst p)) (aligned_words text1 text2).
Proof.
  unfold aligned_words. rewrite equalizeTexts_swap.
  destruct (MSC.equalizeTexts _ _) as [t1 t2]. simpl.
  generalize (Py.split t1) (Py.split t2).
  induction l as [|a l IH]; intros [|b l']; simpl; try reflexivity.
  now rewrite IH.
Qed.

Lemma aligned_words_not_nil text1 text2 : aligned_words text1 text2 <> [].
Proof.
  unfold aligned_words. destruct (MSC.equalizeTexts _ _) as [t1 t2].
  pose proof (split_not_nil t1). pose proof (split_not_nil t2).
  destruct (Py.split t1), (Py.split t2); simpl; congruence.
Qed.

Lemma aligned_words_same text :
  aligned_words text text =
  List.map (fun w => (w, w)) (Py.split (MSC.clean text)).
Proof.
  unfold aligned_words, MSC.equalizeTexts.
  rewrite Nat.ltb_irrefl, Nat.sub_diag. simpl Py.join. rewrite app_nil_r.
  induction (Py.split (MSC.clean text)) as [|w l IH]; simpl; congruence.
Qed.

Lemma text_score_unit text1 text2 : unit_or_nan (text_score text1 text2).
Proof.
  apply mean_unit, Forall_map, Forall_forall. intros p _. apply S_unit.
Qed.

Lemma text_score_swap text1 text2 :
  text_score text2 text1 = text_score text1 text2.
Proof.
  unfold text_score. rewrite aligned_words_swap, map_map. f_equal.
  apply map_ext. intros [w1 w2]. simpl. now rewrite word_diff_swap, S_opp.
Qed.

(** ** [MSCMultiple.similarity] *)

Lemma multiple_similarity_eq fields1 fields2 :
  MSCMultiple.similarity fields1 fields2 =
  Ok (Np.mean (List.map (fun p => text_score (fst p) (snd p))
                 (combine fields1 fields2))).
Proof.
  unfold MSCMultiple.similarity.
  rewrite for_each_total
    with (f := fun p => text_score (fst p) (snd p)); [reflexivity|].
  intros p _. apply similarity_eq.
Qed.

Lemma combine_firstn_min A B (x : list A) (y : list B) :
  combine (firstn (Nat.min (length x) (length y)) x)
          (firstn (Nat.min (length x) (length y)) y) = combine x y.
Proof.
  revert y. induction x as [|a x IH]; intros [|b y]; simpl; try reflexivity.
  now rewrite IH.
Qed.

(** ** Evaluation on concrete texts *)

Ltac eval_aligned :=
  match goal with
  | |- context [aligned_words ?a ?b] =>
      let v := eval vm_compute in (aligned_words a b) in
      change (aligned_words a b) with v
  end.

Ltac eval_diff :=
  repeat match goal with
    | |- context [word_diff ?a ?b] =>
        let v := eval vm_compute in (word_diff a b) in
        change (word_diff a b) with v
    end.

Ltac eval_score :=
  unfold text_score; eval_aligned; cbn [List.map fst snd]; eval_diff.

Lemma S_single x : MSC.S [x] = Num (MSC.kernel x 1).
Proof. rewrite S_cons. simpl. f_equal. field. Qed.

Lemma S_all_underflow X :
  X <> [] -> Forall (fun x => (39 <= Z.abs x)%Z) X -> MSC.S X = Num 0.
Proof.
  intros Hne H. destruct X as [|x X]; [congruence|].
  rewrite S_cons. f_equal.
  assert (Hs : Np.sum (List.map (fun x => MSC.kernel x 1) (x :: X)) = 0%R).
  { clear Hne. induction H as [|y Y Hy _ IH]; [reflexivity|].
    change (MSC.kernel y 1 + Np.sum (List.map (fun x => MSC.kernel x 1) Y)
            = 0)%R.
    rewrite IH, kernel_underflow by exact Hy. ring. }
  rewrite Hs. unfold Rdiv. apply Rmult_0_l.
Qed.

(** ** Word counts after [equalizeTexts] *)

Lemma split_length_cons c s :
  (c =? SPACE)%N = false ->
  length (Py.split (c :: s)) = length (Py.split s).
Proof.
  intros H. simpl. rewrite H.
  pose proof (split_not_nil s). now destruct (Py.split s).
Qed.

Lemma split_length_app s t :
  length (Py.split (s ++ t)) =
  (length (Py.split s) + length (Py.split t) - 1)%nat.
Proof.
  induction s as [|c s IH].
  - simpl. lia.
  - rewrite <- app_comm_cons. destruct (c =? SPACE)%N eqn:E.
    + simpl. rewrite E. simpl. rewrite IH.
      pose proof (split_not_nil s). destruct (Py.split s); [congruence|].
      simpl. lia.
    + now rewrite !split_length_cons.
Qed.

Lemma split_length_padding n :
  length (Py.split (Py.join [SPACE] (repeat [NUL] n))) = Nat.max 1 n.
Proof.
  destruct n as [|n]; [reflexivity|].
  induction n as [|n IH]; [reflexivity|].
  change (repeat [NUL] (S (S n))) with ([NUL] :: repeat [NUL] (S n)).
  change (Py.join [SPACE] ([NUL] :: repeat [NUL] (S n)))
    with (NUL :: SPACE :: Py.join [SPACE] (repeat [NUL] (S n))).
  rewrite split_length_cons by reflexivity.
  change (Py.split (SPACE :: ?x)) with ([] :: Py.split x).
  cbn [length]. rewrite IH. lia.
Qed.

(** When the word counts differ, the padded text ends up one word short of
    the other: the counts are equal afterwards only if they were before. *)
Lemma equalizeTexts_word_counts text1 text2 :
  let n1 := length (Py.split text1) in
  let n2 := length (Py.split text2) in
  length (Py.split (fst (MSC.equalizeTexts text1 text2)))
  = (if (n1 <? n2)%nat then n2 - 1 else n1)%nat
  /\ length (Py.split (snd (MSC.equalizeTexts text1 text2)))
     = (if (n2 <? n1)%nat then n1 - 1 else n2)%nat.
Proof.
  intros n1 n2. unfold MSC.equalizeTexts. fold n1 n2.
  destruct (Nat.ltb_spec n2 n1) as [H|H], (Nat.ltb_spec n1 n2) as [H'|H'];
    try lia; cbn [fst snd]; (split; [|try reflexivity]); try reflexivity;
    rewrite split_length_app, split_length_padding; fold n1 n2; lia.
Qed.

(** ** A second pass of [clean] *)

Lemma clean_kept text : Forall (fun c => kept c = true) (MSC.clean text).
Proof.
  unfold MSC.clean. apply Forall_forall. intros c H.
  apply filter_In in H. exact (proj2 H).
Qed.

Lemma flat_map_singleton (f : char -> str) (s : str) :
  Forall (fun c => f c = [c]) s -> flat_map f s = s.
Proof.
  induction 1 as [|c s Hc _ IH]; [reflexivity|].
  simpl. now rewrite Hc, IH.
Qed.

Lemma kept_cases c :
  kept c = true ->
  (97 <= c <= 122)%N \/ (48 <= c <= 57)%N \/ c = SPACE.
Proof.
  unfold kept. intros H.
  apply orb_true_iff in H as [H|H]; [apply orb_true_iff in H as [H|H]|].
  - apply andb_true_iff in H as [H1 H2].
    apply N.leb_le in H1, H2. left. lia.
  - apply andb_true_iff in H as [H1 H2].
    apply N.leb_le in H1, H2. right. left. lia.
  - apply N.eqb_eq in H. right. right. exact H.
Qed.

Lemma lower_kept s : Forall (fun c => kept c = true) s -> Py.lower s = s.
Proof.
  intros H. apply flat_map_singleton.
  eapply Forall_impl; [|exact H]. intros c Hc. apply kept_cases in Hc.
  unfold Py.lower_char.
  destruct (N.leb_spec 65 c), (N.leb_spec c 90); simpl;
    try (exfalso; unfold SPACE in Hc; lia).
  all: destruct (N.leb_spec 192 c), (N.leb_spec c 222); simpl;
    try (exfalso; unfold SPACE in Hc; lia).
  all: destruct (N.eqb_spec c 304); try (exfalso; unfold SPACE in Hc; lia).
  all: destruct (N.eqb_spec c 8490); try (exfalso; unfold SPACE in Hc; lia).
  all: reflexivity.
Qed.

Lemma replace_kept old new s :
  kept old = false ->
  Forall (fun c => kept c = true) s -> Py.replace old new s = s.
Proof.
  intros Ho H. apply flat_map_singleton.
  eapply Forall_impl; [|exact H]. intros c Hc. simpl.
  destruct (N.eqb_spec c old); [congruence|reflexivity].
Qed.

Lemma lstrip_Forall (P : char -> Prop) s : Forall P s -> Forall P (Py.lstrip s).
Proof.
  induction 1 as [|c s Hc Hs IH]; simpl; [constructor|].
  destruct (Py.isspace c); [exact IH|now constructor].
Qed.

Lemma strip_Forall (P : char -> Prop) s : Forall P s -> Forall P (Py.strip s).
Proof.
  intros H. unfold Py.strip, Py.rstrip.
  now apply Forall_rev, lstrip_Forall, Forall_rev, lstrip_Forall.
Qed.

Lemma collapse_Forall (P : char -> Prop) s :
  Forall P s -> Forall P (Py.collapse s).
Proof.
  induction 1 as [|c s Hc Hs IH]; [constructor|].
  simpl. destruct (c =? SPACE)%N; [|now constructor].
  destruct s as [|d s]; [now constructor|].
  destruct (d =? SPACE)%N; [exact IH|now constructor].
Qed.

Lemma filter_Forall (f : char -> bool) s :
  Forall (fun c => f c = true) s -> filter f s = s.
Proof.
  induction 1 as [|c s Hc _ IH]; [reflexivity|].
  simpl. now rewrite Hc, IH.
Qed.

(** On a text of its own alphabet, [clean] only strips and collapses. *)
Lemma clean_on_kept s :
  Forall (fun c => kept c = true) s ->
  MSC.clean s = Py.collapse (Py.strip s).
Proof.
  intros H. unfold MSC.clean.
  rewrite lower_kept by exact H.
  rewrite (@replace_kept E_ACUTE (lit "e") s eq_refl H).
  rewrite (@replace_kept E_GRAVE (lit "e") s eq_refl H).
  rewrite (@replace_kept NEWLINE (lit " ") s eq_refl H).
  apply (filter_Forall kept). now apply collapse_Forall, strip_Forall.
Qed.

(** A second pass of [clean] leaves a text unchanged exactly when the first
    pass left no space at either end and no two spaces in a row. *)
Lemma clean_twice text :
  MSC.clean (MSC.clean text) = Py.collapse (Py.strip (MSC.clean text)).
Proof. apply clean_on_kept, clean_kept. Qed.

(** * The claims *)

Local Open Scope R_scope.

(** C1, as stated, fails: the text ["!"] is not empty, yet every character
    of it is dropped by [clean], the only aligned pair is two empty words
    and the score is [nan], not [1.0]. *)
Lemma C1_counterexample :
  lit "!" <> [] /\ MSC.similarity (lit "!") (lit "!") = Ok NaN.
Proof.
  split; [discriminate|].
  rewrite similarity_eq. eval_score. reflexivity.
Qed.

(** C1, amended: a text whose cleaned form splits into non-empty words only
    has similarity exactly [1.0] with itself. *)
Theorem C1_reflexivity (T : str) :
  Forall (fun w => w <> []) (Py.split (MSC.clean T)) ->
  MSC.similarity T T = Ok (Num 1).
Proof.
  intros H. rewrite similarity_eq. unfold text_score.
  rewrite aligned_words_same, map_map. cbn [fst snd].
  rewrite map_ext_in with (g := fun _ => Num 1).
  - rewrite map_const. f_equal. apply mean_repeat.
    pose proof (split_not_nil (MSC.clean T)).
    destruct (Py.split (MSC.clean T)); [congruence|simpl; lia].
  - intros w Hw. rewrite Forall_forall in H. specialize (H w Hw).
    rewrite word_diff_same. apply S_zeros.
    destruct w; [congruence|simpl; lia].
Qed.

Lemma C1_reflexivity_witness :
  Forall (fun w => w <> []) (Py.split (MSC.clean (lit "Hello World!")))
  /\ MSC.similarity (lit "Hello World!") (lit "Hello World!") = Ok (Num 1).
Proof.
  assert (H : Forall (fun w : str => w <> [])
                (Py.split (MSC.clean (lit "Hello World!")))).
  { vm_compute. repeat constructor; discriminate. }
  split; [exact H|exact (C1_reflexivity (lit "Hello World!") H)].
Defined.

(** C2: swapping the two texts negates every difference array and leaves
    the returned value unchanged (a [nan] stays a [nan]). *)
Theorem C2_symmetry (A B : str) :
  List.map (fun p => word_diff (fst p) (snd p)) (aligned_words B A) =
  List.map (fun p => List.map Z.opp (word_diff (fst p) (snd p)))
    (aligned_words A B)
  /\ MSC.similarity A B = MSC.similarity B A.
Proof.
  split.
  - rewrite aligned_words_swap, map_map. apply map_ext.
    intros [w1 w2]. apply word_diff_swap.
  - now rewrite !similarity_eq, text_score_swap.
Qed.

(** C3, as stated, fails: the codes of ["0"] and ["z"] are 74 apart,
    [np.exp(-2738.0)] underflows and the score is [0.0], which is not
    strictly above 0. *)
Lemma C3_counterexample :
  exists r, MSC.similarity (lit "0") (lit "z") = Ok (Num r) /\ ~ 0 < r.
Proof.
  exists 0. split; [|lra].
  rewrite similarity_eq. eval_score.
  now rewrite S_single, kernel_underflow, mean_single by (simpl; lia).
Qed.

(** C3, amended: a score that is not [nan] lies between 0 and 1, both
    included, for [MSC.similarity] and for [MSCMultiple.similarity]. *)
Theorem C3_bounded :
  (forall (A B : str) (r : R),
      MSC.similarity A B = Ok (Num r) -> 0 <= r <= 1)
  /\ (forall (F1 F2 : list str) (r : R),
         MSCMultiple.similarity F1 F2 = Ok (Num r) -> 0 <= r <= 1).
Proof.
  split.
  - intros A B r H. rewrite similarity_eq in H.
    pose proof (text_score_unit A B) as U.
    injection H as H. rewrite H in U. exact U.
  - intros F1 F2 r H. rewrite multiple_similarity_eq in H.
    injection H as H.
    assert (U : unit_or_nan (Num r)); [|exact U].
    rewrite <- H. apply mean_unit, Forall_map, Forall_forall.
    intros p _. apply text_score_unit.
Qed.

Lemma C3_bounded_witness :
  (MSC.similarity (lit "0") (lit "0") = Ok (Num 1) /\ 0 <= 1 <= 1)
  /\ (MSCMultiple.similarity [lit "0"] [lit "0"] = Ok (Num 1)
      /\ 0 <= 1 <= 1).
Proof.
  assert (Hs : text_score (lit "0") (lit "0") = Num 1).
  { eval_score. now rewrite S_single, kernel_0, mean_single. }
  assert (H1 : MSC.similarity (lit "0") (lit "0") = Ok (Num 1)).
  { now rewrite similarity_eq, Hs. }
  assert (H2 : MSCMultiple.similarity [lit "0"] [lit "0"] = Ok (Num 1)).
  { rewrite multiple_similarity_eq. cbn [combine List.map fst snd].
    now rewrite Hs, mean_single. }
  split.
  - split; [exact H1|exact (proj1 C3_bounded _ _ _ H1)].
  - split; [exact H2|exact (proj2 C3_bounded _ _ _ H2)].
Defined.

(** C4: [clean] strips and collapses the spaces before it drops the
    characters outside its alphabet, so dropping ["!"] from ["a ! b"]
    leaves two spaces in a row, and a second pass changes the text. *)
Theorem C4_clean_twice :
  MSC.clean (lit "a ! b") = lit "a  b"
  /\ MSC.clean (MSC.clean (lit "a ! b")) = lit "a b"
  /\ MSC.clean (MSC.clean (lit "a ! b")) <> MSC.clean (lit "a ! b").
Proof. vm_compute. repeat split; discriminate. Qed.

(** C5: the two-word text ["a b"] and the one-word text ["a"] come out of
    [equalizeTexts] with two words and one word: the padding has no leading
    space and joins the last word. *)
Theorem C5_word_counts_differ :
  MSC.equalizeTexts (lit "a b") (lit "a") = (lit "a b", lit "a" ++ [NUL])
  /\ length (Py.split (fst (MSC.equalizeTexts (lit "a b") (lit "a")))) = 2%nat
  /\ length (Py.split (snd (MSC.equalizeTexts (lit "a b") (lit "a")))) = 1%nat.
Proof. vm_compute. repeat split. Qed.

(** C6, as stated, fails: on two empty strings nothing is raised. *)
Lemma C6_counterexample :
  ~ exists e : exn, MSC.similarity (lit "") (lit "") = Raise e.
Proof.
  intros [e H]. rewrite similarity_eq in H. discriminate.
Qed.

(** C6, amended: on two empty strings [similarity] returns [nan], the mean
    over the empty array of the one pair of empty words. *)
Theorem C6_empty_texts :
  aligned_words (lit "") (lit "") = [([], [])]
  /\ MSC.S (word_diff [] []) = NaN
  /\ MSC.similarity (lit "") (lit "") = Ok NaN.
Proof.
  split; [reflexivity|]. split; [reflexivity|].
  rewrite similarity_eq. eval_score. reflexivity.
Qed.

(** C7, as stated, fails: a list of two fields against a list of one is
    compared on the first field alone and a score is returned. *)
Lemma C7_counterexample :
  length [lit "a"; lit "b"] <> length [lit "a"]
  /\ MSCMultiple.similarity [lit "a"; lit "b"] [lit "a"] = Ok (Num 1)
  /\ ~ exists e : exn,
        MSCMultiple.similarity [lit "a"; lit "b"] [lit "a"] = Raise e.
Proof.
  assert (H : MSCMultiple.similarity [lit "a"; lit "b"] [lit "a"]
              = Ok (Num 1)).
  { rewrite multiple_similarity_eq. cbn [combine List.map fst snd].
    eval_score. now rewrite S_single, kernel_0, !mean_single. }
  split; [simpl; lia|]. split; [exact H|].
  intros [e He]. rewrite H in He. discriminate.
Qed.

(** C7, amended: [MSCMultiple.similarity] raises nothing; on lists of
    different lengths it returns what it returns on the two lists cut to
    the length of the shorter. *)
Theorem C7_truncates (F1 F2 : list str) :
  let n := Nat.min (length F1) (length F2) in
  (exists v, MSCMultiple.similarity F1 F2 = Ok v)
  /\ MSCMultiple.similarity F1 F2 =
     MSCMultiple.similarity (firstn n F1) (firstn n F2).
Proof.
  intros n. split.
  - eexists. apply multiple_similarity_eq.
  - rewrite !multiple_similarity_eq. subst n.
    now rewrite combine_firstn_min.
Qed.

(** C8: on ["one two three"] and ["one"] nothing is raised and the score
    returned is [0.5], which lies in (0, 1]; but the equalization does not
    equalize: the padding of the shorter text joins its last word, the
    padded text has the two words ["one\000"] and ["\000"] against three,
    and ["three"] is compared with nothing. *)
Theorem C8_word_count_mismatch :
  MSC.equalizeTexts (MSC.clean (lit "one two three")) (MSC.clean (lit "one"))
  = (lit "one two three", lit "one" ++ [NUL; SPACE; NUL])
  /\ Py.split (lit "one" ++ [NUL; SPACE; NUL]) = [lit "one" ++ [NUL]; [NUL]]
  /\ length (Py.split (lit "one two three")) = 3%nat
  /\ length (Py.split (lit "one" ++ [NUL; SPACE; NUL])) = 2%nat
  /\ aligned_words (lit "one two three") (lit "one")
     = [(lit "one", lit "one" ++ [NUL]); (lit "two", [NUL])]
  /\ ~ In (lit "three")
         (List.map fst (aligned_words (lit "one two three") (lit "one")))
  /\ exists r,
      MSC.similarity (lit "one two three") (lit "one") = Ok (Num r)
      /\ r = 1 / 2 /\ 0 < r <= 1.
Proof.
  split; [vm_compute; reflexivity|]. split; [vm_compute; reflexivity|].
  split; [vm_compute; reflexivity|]. split; [vm_compute; reflexivity|].
  split; [vm_compute; reflexivity|].
  split; [vm_compute; intuition discriminate|].
  exists (1 / 2). split; [|lra].
  rewrite similarity_eq. eval_score.
  change [0; 0; 0; 0]%Z with (repeat 0%Z 4).
  rewrite (S_zeros (n := 4)) by lia.
  rewrite S_all_underflow
    by (try discriminate; repeat constructor; simpl; lia).
  unfold Np.mean. simpl. do 2 f_equal. field.
Qed.





(** C10: [MSC.similarity] and [MSCMultiple.similarity] return a value on
    all inputs and raise nothing; the mean over an empty array is [nan],
    so a pair of empty aligned words makes the score [nan], and so does a
    pair of empty field lists. *)
Theorem C10_never_raises :
  (forall A B : str, exists v, MSC.similarity A B = Ok v)
  /\ (forall F1 F2 : list str, exists v, MSCMultiple.similarity F1 F2 = Ok v)
  /\ MSC.S [] = NaN
  /\ Np.mean [] = NaN
  /\ MSC.similarity_body ([], []) = Ok NaN
  /\ (forall A B : str,
         In ([], []) (aligned_words A B) -> MSC.similarity A B = Ok NaN)
  /\ MSCMultiple.similarity [] [] = Ok NaN.
Proof.
  split; [intros; eexists; apply similarity_eq|].
  split; [intros; eexists; apply multiple_similarity_eq|].
  split; [reflexivity|]. split; [reflexivity|].
  split; [now rewrite similarity_body_eq|].
  split; [|reflexivity].
  intros A B H. rewrite similarity_eq. f_equal. apply mean_nan.
  apply in_map_iff. exists ([], []). split; [reflexivity|exact H].
Qed.

Lemma C10_never_raises_witness :
  In ([], []) (aligned_words (lit "") (lit "?!"))
  /\ MSC.similarity (lit "") (lit "?!") = Ok NaN.
Proof.
  assert (H : In ([], []) (aligned_words (lit "") (lit "?!"))).
  { vm_compute. left. reflexivity. }
  split; [exact H|].
  exact (proj1 (proj2 (proj2 (proj2 (proj2 (proj2 C10_never_raises)))))
           _ _ H).
Defined.

(** * Further properties *)

(** ** When a score is 1, 0 or [nan] *)

Lemma kernel_eq_1 x : MSC.kernel x 1 = 1 <-> x = 0%Z.
Proof.
  split; [|intros ->; apply kernel_0].
  intros H. destruct (Z.eq_dec x 0) as [E|E]; [exact E|].
  apply kernel_lt_1 in E. lra.
Qed.

Lemma kernel_eq_0 x : MSC.kernel x 1 = 0 <-> (39 <= Z.abs x)%Z.
Proof.
  split; [|apply kernel_underflow].
  intros H. destruct (Z_le_gt_dec 39 (Z.abs x)) as [L|G]; [exact L|].
  assert (0 < MSC.kernel x 1) by (apply kernel_positive; lia). lra.
Qed.

Lemma sum_full (l : list R) :
  Forall (fun r => 0 <= r <= 1) l ->
  Np.sum l = INR (length l) <-> Forall (fun r => r = 1) l.
Proof.
  induction 1 as [|r l Hr Hl IH].
  - simpl. split; [constructor|reflexivity].
  - change (Np.sum (r :: l)) with (r + Np.sum l).
    change (length (r :: l)) with (S (length l)). rewrite S_INR.
    pose proof (sum_range Hl) as Hs. split.
    + intros H. assert (r = 1) by lra. constructor; [assumption|].
      apply IH. lra.
    + intros H. inversion H as [|? ? E1 E2]; subst.
      apply IH in E2. lra.
Qed.

Lemma sum_null (l : list R) :
  Forall (fun r => 0 <= r <= 1) l ->
  Np.sum l = 0 <-> Forall (fun r => r = 0) l.
Proof.
  induction 1 as [|r l Hr Hl IH].
  - simpl. split; [constructor|reflexivity].
  - change (Np.sum (r :: l)) with (r + Np.sum l).
    pose proof (sum_range Hl) as Hs. split.
    + intros H. assert (r = 0) by lra. constructor; [assumption|].
      apply IH. lra.
    + intros H. inversion H as [|? ? E1 E2]; subst.
      apply IH in E2. lra.
Qed.

Lemma kernels_range X :
  Forall (fun r => 0 <= r <= 1) (List.map (fun x => MSC.kernel x 1) X).
Proof. apply Forall_map, Forall_forall. intros. apply kernel_range. Qed.

Lemma div_eq_1 t n : (0 < n)%nat -> t / INR n = 1 <-> t = INR n.
Proof.
  intros Hn. assert (0 < INR n) by now apply lt_0_INR. split; intros H'.
  - apply Rmult_eq_reg_r with (/ INR n);
      [|apply Rinv_neq_0_compat; lra].
    rewrite Rinv_r by lra. exact H'.
  - subst. field. lra.
Qed.

Lemma div_eq_0 t n : (0 < n)%nat -> t / INR n = 0 <-> t = 0.
Proof.
  intros Hn. assert (0 < INR n) by now apply lt_0_INR. split; intros H'.
  - apply Rmult_eq_reg_r with (/ INR n);
      [|apply Rinv_neq_0_compat; lra].
    rewrite Rmult_0_l. exact H'.
  - subst. field. lra.
Qed.

Lemma Num_inj r t : Num r = Num t -> r = t.
Proof. now intros [= ->]. Qed.

Lemma S_eq_nan X : MSC.S X = NaN <-> X = [].
Proof.
  split; [|intros ->; reflexivity].
  destruct X; [reflexivity|]. rewrite S_cons. discriminate.
Qed.

Lemma S_eq_1 X :
  MSC.S X = Num 1 <-> X <> [] /\ Forall (fun x => x = 0%Z) X.
Proof.
  destruct X as [|x X].
  - split; [discriminate|]. intros [H _]. congruence.
  - rewrite S_cons. split.
    + intros H. apply Num_inj in H. split; [discriminate|].
      apply div_eq_1 in H; [|simpl; lia].
      rewrite <- (length_map (fun x => MSC.kernel x 1)) in H.
      apply sum_full in H; [|apply kernels_range].
      rewrite Forall_map in H. eapply Forall_impl; [|exact H].
      intros a Ha. now apply kernel_eq_1.
    + intros [_ H]. f_equal. apply div_eq_1; [simpl; lia|].
      rewrite <- (length_map (fun x => MSC.kernel x 1)).
      apply sum_full; [apply kernels_range|].
      rewrite Forall_map. eapply Forall_impl; [|exact H].
      intros a Ha. now apply kernel_eq_1.
Qed.

Lemma S_eq_0 X :
  MSC.S X = Num 0 <-> X <> [] /\ Forall (fun x => (39 <= Z.abs x)%Z) X.
Proof.
  destruct X as [|x X].
  - split; [discriminate|]. intros [H _]. congruence.
  - rewrite S_cons. split.
    + intros H. apply Num_inj in H. split; [discriminate|].
      apply div_eq_0 in H; [|simpl; lia].
      apply sum_null in H; [|apply kernels_range].
      rewrite Forall_map in H. eapply Forall_impl; [|exact H].
      intros a Ha. now apply kernel_eq_0.
    + intros [_ H]. f_equal. apply div_eq_0; [simpl; lia|].
      apply sum_null; [apply kernels_range|].
      rewrite Forall_map. eapply Forall_impl; [|exact H].
      intros a Ha. now apply kernel_eq_0.
Qed.

Lemma nan_or_nums (l : list float64) :
  In NaN l \/ exists rs, l = List.map Num rs.
Proof.
  induction l as [|v l [IH|[rs IH]]].
  - right. now exists [].
  - left. now right.
  - destruct v as [r|]; [|left; now left].
    right. exists (r :: rs). simpl. now rewrite IH.
Qed.

Lemma fsum_nums rs : Np.fsum (List.map Num rs) = Num (Np.sum rs).
Proof.
  induction rs as [|r rs IH]; [reflexivity|].
  simpl. now rewrite IH.
Qed.

Lemma mean_nums r rs :
  Np.mean (List.map Num (r :: rs))
  = Num (Np.sum (r :: rs) / INR (length (r :: rs))).
Proof.
  unfold Np.mean. rewrite fsum_nums, length_map. reflexivity.
Qed.

Lemma mean_eq_nan l : Np.mean l = NaN <-> l = [] \/ In NaN l.
Proof.
  split.
  - intros H. destruct (nan_or_nums l) as [N|[rs ->]]; [now right|].
    destruct rs as [|r rs]; [now left|].
    rewrite mean_nums in H. discriminate.
  - intros [->|H]; [reflexivity|now apply mean_nan].
Qed.

Lemma units_nums rs :
  Forall unit_or_nan (List.map Num rs) -> Forall (fun r => 0 <= r <= 1) rs.
Proof. intros H. now rewrite Forall_map in H. Qed.

Lemma mean_eq_1 l :
  Forall unit_or_nan l ->
  Np.mean l = Num 1 <-> l <> [] /\ Forall (fun v => v = Num 1) l.
Proof.
  intros U. destruct (nan_or_nums l) as [N|[rs ->]].
  - rewrite (mean_nan _ N). split; [discriminate|].
    intros [_ H]. rewrite Forall_forall in H. specialize (H _ N).
    discriminate.
  - apply units_nums in U. destruct rs as [|r rs].
    + split; [discriminate|]. intros [H _]. now elim H.
    + rewrite mean_nums. split.
      * intros H. apply Num_inj in H. split; [discriminate|].
        apply div_eq_1 in H; [|simpl; lia].
        apply sum_full in H; [|exact U].
        rewrite Forall_map. eapply Forall_impl; [|exact H].
        now intros a ->.
      * intros [_ H]. f_equal. apply div_eq_1; [simpl; lia|].
        apply sum_full; [exact U|].
        rewrite Forall_map in H. eapply Forall_impl; [|exact H].
        intros a Ha. now apply Num_inj.
Qed.

Lemma mean_eq_0 l :
  Forall unit_or_nan l ->
  Np.mean l = Num 0 <-> l <> [] /\ Forall (fun v => v = Num 0) l.
Proof.
  intros U. destruct (nan_or_nums l) as [N|[rs ->]].
  - rewrite (mean_nan _ N). split; [discriminate|].
    intros [_ H]. rewrite Forall_forall in H. specialize (H _ N).
    discriminate.
  - apply units_nums in U. destruct rs as [|r rs].
    + split; [discriminate|]. intros [H _]. now elim H.
    + rewrite mean_nums. split.
      * intros H. apply Num_inj in H. split; [discriminate|].
        apply div_eq_0 in H; [|simpl; lia].
        apply sum_null in H; [|exact U].
        rewrite Forall_map. eapply Forall_impl; [|exact H].
        now intros a ->.
      * intros [_ H]. f_equal. apply div_eq_0; [simpl; lia|].
        apply sum_null; [exact U|].
        rewrite Forall_map in H. eapply Forall_impl; [|exact H].
        intros a Ha. now apply Num_inj.
Qed.

Lemma scores_unit (pairs : list (str * str)) :
  Forall unit_or_nan
    (List.map (fun p => MSC.S (word_diff (fst p) (snd p))) pairs).
Proof. apply Forall_map, Forall_forall. intros p _. apply S_unit. Qed.

Lemma word_diff_eq_nil word1 word2 :
  word_diff word1 word2 = [] <-> word1 = [] /\ word2 = [].
Proof.
  split; [|intros [-> ->]; reflexivity].
  intros H. apply (f_equal (@length Z)) in H.
  rewrite word_diff_length in H. simpl in H.
  destruct word1, word2; simpl in H; try lia. now split.
Qed.

(** X1: [similarity] returns [nan] exactly when some pair of aligned words
    is a pair of two empty words. *)
Theorem X1_nan_iff_empty_pair (A B : str) :
  MSC.similarity A B = Ok NaN <-> In ([], []) (aligned_words A B).
Proof.
  rewrite similarity_eq. unfold text_score. split.
  - intros H. assert (H' : forall v w : float64, Ok v = Ok w -> v = w)
      by now intros v w [= ->].
    apply H' in H. apply mean_eq_nan in H as [H|H].
    + apply map_eq_nil in H. now apply aligned_words_not_nil in H.
    + apply in_map_iff in H as ([w1 w2] & H & Hin). simpl in H.
      apply S_eq_nan, word_diff_eq_nil in H as [-> ->]. exact Hin.
  - intros H. f_equal. apply mean_nan, in_map_iff.
    exists ([], []). split; [reflexivity|exact H].
Qed.

(** X2: [similarity] returns exactly [1.0] if and only if, for every pair
    of aligned words, the array of code differences is not empty and holds
    zeros only. *)
Theorem X2_one_iff_zero_diffs (A B : str) :
  MSC.similarity A B = Ok (Num 1) <->
  Forall (fun p => word_diff (fst p) (snd p) <> []
                   /\ Forall (fun z => z = 0%Z) (word_diff (fst p) (snd p)))
    (aligned_words A B).
Proof.
  rewrite similarity_eq. unfold text_score. split.
  - intros H. assert (H' : forall v w : float64, Ok v = Ok w -> v = w)
      by now intros v w [= ->].
    apply H' in H. apply mean_eq_1 in H as [_ H]; [|apply scores_unit].
    rewrite Forall_map in H. eapply Forall_impl; [|exact H].
    intros p Hp. now apply S_eq_1.
  - intros H. f_equal. apply mean_eq_1; [apply scores_unit|]. split.
    + intros E. apply map_eq_nil in E. now apply aligned_words_not_nil in E.
    + rewrite Forall_map. eapply Forall_impl; [|exact H].
      intros p Hp. now apply S_eq_1.
Qed.

(** X3: [similarity] returns exactly [0.0] if and only if, for every pair
    of aligned words, the array of code differences is not empty and every
    entry of it is at least 39 in absolute value (where [np.exp]
    underflows). *)
Theorem X3_zero_iff_far_apart (A B : str) :
  MSC.similarity A B = Ok (Num 0) <->
  Forall (fun p => word_diff (fst p) (snd p) <> []
                   /\ Forall (fun z => (39 <= Z.abs z)%Z)
                        (word_diff (fst p) (snd p)))
    (aligned_words A B).
Proof.
  rewrite similarity_eq. unfold text_score. split.
  - intros H. assert (H' : forall v w : float64, Ok v = Ok w -> v = w)
      by now intros v w [= ->].
    apply H' in H. apply mean_eq_0 in H as [_ H]; [|apply scores_unit].
    rewrite Forall_map in H. eapply Forall_impl; [|exact H].
    intros p Hp. now apply S_eq_0.
  - intros H. f_equal. apply mean_eq_0; [apply scores_unit|]. split.
    + intros E. apply map_eq_nil in E. now apply aligned_words_not_nil in E.
    + rewrite Forall_map. eapply Forall_impl; [|exact H].
      intros p Hp. now apply S_eq_0.
Qed.

(** ** The array of differences of one pair of words *)

Lemma word_diff_cons c d word1 word2 :
  word_diff (c :: word1) (d :: word2)
  = (Z.of_N d - Z.of_N c)%Z :: word_diff word1 word2.
Proof. reflexivity. Qed.

Lemma word_diff_nil_l d word2 :
  word_diff [] (d :: word2) = Z.of_N d :: word_diff [] word2.
Proof.
  unfold word_diff. simpl. rewrite !Nat.sub_0_r, Z.sub_0_r. reflexivity.
Qed.

Lemma word_diff_nil_r c word1 :
  word_diff (c :: word1) [] = (- Z.of_N c)%Z :: word_diff word1 [].
Proof.
  unfold word_diff. simpl. rewrite !Nat.sub_0_r. reflexivity.
Qed.

Lemma word_diff_nth word1 word2 i :
  nth i (word_diff word1 word2) 0%Z
  = (nth i (MSC._ord word2) 0 - nth i (MSC._ord word1) 0)%Z.
Proof.
  revert word2 i. induction word1 as [|c w1 IH]; intros word2.
  - induction word2 as [|d w2 IH2]; intros i.
    + now destruct i.
    + rewrite word_diff_nil_l. destruct i as [|i];
        cbn [nth MSC._ord List.map]; [lia|].
      rewrite IH2. now destruct i.
  - destruct word2 as [|d w2]; intros i.
    + rewrite word_diff_nil_r. destruct i as [|i];
        cbn [nth MSC._ord List.map]; [lia|].
      rewrite IH. now destruct i.
    + rewrite word_diff_cons. destruct i as [|i];
        cbn [nth MSC._ord List.map]; [reflexivity|apply IH].
Qed.

(** X4: the loop body subtracts two arrays of one length, the longer of
    the two words, and never raises; entry [i] of the difference is the
    code of character [i] of [word2] minus that of [word1], a missing
    character counting as code 0. *)
Theorem X4_difference_array (word1 word2 : str) :
  MSC.similarity_body (word1, word2) = Ok (MSC.S (word_diff word1 word2))
  /\ length (word_diff word1 word2) = Nat.max (length word1) (length word2)
  /\ forall i,
      nth i (word_diff word1 word2) 0%Z
      = (nth i (MSC._ord word2) 0 - nth i (MSC._ord word1) 0)%Z.
Proof.
  split; [apply similarity_body_eq|].
  split; [apply word_diff_length|]. apply word_diff_nth.
Qed.

Lemma zero_diff_equal word1 word2 :
  ~ In NUL word1 -> ~ In NUL word2 ->
  Forall (fun z => z = 0%Z) (word_diff word1 word2) -> word1 = word2.
Proof.
  revert word2. induction word1 as [|c w1 IH]; intros [|d w2] N1 N2 H.
  - reflexivity.
  - rewrite word_diff_nil_l in H. inversion H as [|? ? E _]; subst.
    exfalso. apply N2. left. change (d = 0%N). lia.
  - rewrite word_diff_nil_r in H. inversion H as [|? ? E _]; subst.
    exfalso. apply N1. left. change (c = 0%N). lia.
  - rewrite word_diff_cons in H. inversion H as [|? ? E H']; subst.
    assert (c = d) by lia. subst. f_equal.
    apply IH; [intros F; apply N1; now right
              |intros F; apply N2; now right|exact H'].
Qed.

(** X5: for two words without the padding character, the per-word score
    is [1.0] exactly when the two words are equal and not empty. *)
Theorem X5_word_score_one (word1 word2 : str) :
  ~ In NUL word1 -> ~ In NUL word2 ->
  MSC.similarity_body (word1, word2) = Ok (Num 1)
  <-> word1 = word2 /\ word1 <> [].
Proof.
  intros N1 N2. rewrite similarity_body_eq. split.
  - intros H. assert (H' : MSC.S (word_diff word1 word2) = Num 1)
      by now injection H.
    apply S_eq_1 in H' as [Hne Hz].
    apply zero_diff_equal in Hz; [|assumption|assumption]. subst.
    split; [reflexivity|]. intros ->. now apply Hne.
  - intros [-> Hne]. f_equal. rewrite word_diff_same. apply S_zeros.
    destruct word2; [congruence|simpl; lia].
Qed.

Lemma X5_word_score_one_witness :
  ~ In NUL (lit "mit")
  /\ MSC.similarity_body (lit "mit", lit "mit") = Ok (Num 1).
Proof.
  assert (N : ~ In NUL (lit "mit")) by (vm_compute; intuition discriminate).
  split; [exact N|].
  apply (proj2 (@X5_word_score_one (lit "mit") (lit "mit") N N)).
  split; [reflexivity|discriminate].
Defined.

Lemma word_diff_from_nil word : word_diff [] word = List.map Z.of_N word.
Proof.
  induction word as [|d w IH]; [reflexivity|].
  rewrite word_diff_nil_l, IH. reflexivity.
Qed.

Lemma word_diff_to_nil word :
  word_diff word [] = List.map (fun c => (- Z.of_N c)%Z) word.
Proof.
  induction word as [|c w IH]; [reflexivity|].
  rewrite word_diff_nil_r, IH. reflexivity.
Qed.

Lemma word_diff_extension word more :
  word_diff word (word ++ more)
  = repeat 0%Z (length word) ++ List.map Z.of_N more.
Proof.
  induction word as [|c w IH]; [apply word_diff_from_nil|].
  rewrite <- app_comm_cons, word_diff_cons, IH, Z.sub_diag. reflexivity.
Qed.

Lemma sum_app l1 l2 : Np.sum (l1 ++ l2) = Np.sum l1 + Np.sum l2.
Proof.
  induction l1 as [|r l1 IH]; [simpl; ring|].
  change (r + Np.sum (l1 ++ l2) = r + Np.sum l1 + Np.sum l2).
  rewrite IH. ring.
Qed.

Lemma sum_far X :
  Forall (fun x => (39 <= Z.abs x)%Z) X ->
  Np.sum (List.map (fun x => MSC.kernel x 1) X) = 0.
Proof.
  intros H. apply sum_null; [apply kernels_range|].
  rewrite Forall_map. eapply Forall_impl; [|exact H].
  intros a Ha. now apply kernel_eq_0.
Qed.

Lemma div_len_S r k : Np.div_len (Num r) (S k) = Num (r / INR (S k)).
Proof. reflexivity. Qed.

(** X6: when [word2] is [word1] followed by more characters, each of code
    39 or more (every letter and digit is), the per-word score is the
    length of [word1] over the length of [word2]: the added characters
    count for nothing. *)
Theorem X6_extension_ratio (word more : str) :
  word ++ more <> [] ->
  Forall (fun c => (39 <= c)%N) more ->
  MSC.similarity_body (word, word ++ more)
  = Ok (Num (INR (length word) / INR (length (word ++ more)))).
Proof.
  intros Hne Hfar. rewrite similarity_body_eq, word_diff_extension.
  f_equal. unfold MSC.S.
  rewrite map_app, sum_app, map_repeat, kernel_0, sum_repeat, sum_far.
  - rewrite !length_app, repeat_length, length_map. unfold str, char in *.
    destruct (length word + length more)%nat eqn:E.
    + destruct word, more; simpl in E; try lia. now elim Hne.
    + rewrite div_len_S. f_equal. unfold Rdiv. f_equal. ring.
  - rewrite Forall_map. eapply Forall_impl; [|exact Hfar].
    intros c Hc. cbv beta in Hc. lia.
Qed.

Lemma X6_extension_ratio_witness :
  MSC.similarity_body (lit "ox", lit "ox" ++ lit "ford")
  = Ok (Num (INR 2 / INR 6)).
Proof.
  apply (@X6_extension_ratio (lit "ox") (lit "ford")).
  - discriminate.
  - vm_compute. repeat constructor; discriminate.
Defined.

(** ** The words of a cleaned text *)

Lemma split_Forall (P : char -> Prop) s :
  Forall P s -> Forall (Forall P) (Py.split s).
Proof.
  induction 1 as [|c s Hc Hs IH]; [repeat constructor|].
  simpl. destruct (c =? SPACE)%N; [now constructor|].
  destruct (Py.split s) as [|w ws]; [repeat constructor; assumption|].
  inversion IH; subst. constructor; [now constructor|assumption].
Qed.

Lemma split_no_space s :
  Forall (Forall (fun c => c <> SPACE)) (Py.split s).
Proof.
  induction s as [|c s IH]; [repeat constructor|].
  simpl. destruct (N.eqb_spec c SPACE) as [E|E]; [now constructor|].
  destruct (Py.split s) as [|w ws]; [repeat constructor; assumption|].
  inversion IH; subst. constructor; [now constructor|assumption].
Qed.

(** Every character of a word of a cleaned text is a digit or a lowercase
    letter, of code 48 at least. *)
Lemma clean_word_codes text w :
  In w (Py.split (MSC.clean text)) -> Forall (fun c => (48 <= c)%N) w.
Proof.
  intros H.
  pose proof (split_Forall (clean_kept text)) as K.
  pose proof (split_no_space (MSC.clean text)) as Sp.
  rewrite Forall_forall in K, Sp. specialize (K w H). specialize (Sp w H).
  rewrite Forall_forall in *. intros c Hc.
  specialize (K c Hc). specialize (Sp c Hc).
  apply kept_cases in K. destruct K as [K|[K|K]]; [lia|lia|contradiction].
Qed.

Lemma split_padding n :
  (1 <= n)%nat ->
  Py.split (Py.join [SPACE] (repeat [NUL] n)) = repeat [NUL] n.
Proof.
  intros H. destruct n as [|n]; [lia|]. clear H.
  induction n as [|n IH]; [reflexivity|].
  change (repeat [NUL] (S (S n))) with ([NUL] :: repeat [NUL] (S n)).
  change (Py.join [SPACE] ([NUL] :: repeat [NUL] (S n)))
    with (NUL :: SPACE :: Py.join [SPACE] (repeat [NUL] (S n))).
  change (Py.split (NUL :: SPACE :: ?x)) with ([NUL] :: Py.split x).
  now rewrite IH.
Qed.

Lemma far_from_padding w v :
  w <> [] -> Forall (fun c => (48 <= c)%N) w -> v = [] \/ v = [NUL] ->
  word_diff w v <> []
  /\ Forall (fun z => (39 <= Z.abs z)%Z) (word_diff w v).
Proof.
  intros Hne Hw Hv. split.
  - intros E. apply word_diff_eq_nil in E. now destruct E.
  - destruct w as [|c w]; [congruence|].
    inversion Hw as [|? ? Hc Hw']; subst.
    assert (T : Forall (fun z => (39 <= Z.abs z)%Z) (word_diff w [])).
    { rewrite word_diff_to_nil, Forall_map.
      eapply Forall_impl; [|exact Hw']. intros a Ha. cbv beta in Ha. lia. }
    destruct Hv as [->| ->].
    + rewrite word_diff_nil_r. constructor; [lia|exact T].
    + rewrite word_diff_cons. constructor; [|exact T].
      change (Z.of_N NUL) with 0%Z. lia.
Qed.

(** X7: a text whose cleaned form has only non-empty words, compared with
    a text that [clean] empties (the empty string, blanks, punctuation),
    scores exactly [0.0]. *)
Theorem X7_against_empty_text (T E : str) :
  Forall (fun w => w <> []) (Py.split (MSC.clean T)) ->
  MSC.clean E = [] ->
  MSC.similarity T E = Ok (Num 0).
Proof.
  intros HT HE. rewrite similarity_eq. unfold text_score. f_equal.
  apply mean_eq_0; [apply scores_unit|]. split.
  - intros N. apply map_eq_nil in N. now apply aligned_words_not_nil in N.
  - rewrite Forall_map. apply Forall_forall. intros [w v] Hp.
    apply S_eq_0. cbn [fst snd].
    unfold aligned_words, MSC.equalizeTexts in Hp. rewrite HE in Hp.
    change (length (Py.split [])) with 1%nat in Hp.
    rewrite Forall_forall in HT.
    destruct (Nat.ltb_spec 1 (length (Py.split (MSC.clean T)))) as [L|L].
    + cbn [app] in Hp. rewrite split_padding in Hp by lia.
      pose proof (in_combine_l _ _ _ _ Hp) as Hw.
      pose proof (in_combine_r _ _ _ _ Hp) as Hv.
      apply repeat_spec in Hv.
      apply far_from_padding;
        [now apply HT|now apply clean_word_codes with T|now right].
    + assert (G : (1 <= length (Py.split (MSC.clean T)))%nat).
      { pose proof (split_not_nil (MSC.clean T)).
        destruct (Py.split (MSC.clean T)); [congruence|simpl; lia]. }
      replace (1 - length (Py.split (MSC.clean T)))%nat with 0%nat in Hp
        by lia.
      cbn [repeat Py.join] in Hp. rewrite app_nil_r in Hp.
      pose proof (in_combine_l _ _ _ _ Hp) as Hw.
      pose proof (in_combine_r _ _ _ _ Hp) as Hv.
      destruct Hv as [Hv|[]].
      apply far_from_padding;
        [now apply HT|now apply clean_word_codes with T|now left].
Qed.

Lemma X7_against_empty_text_witness :
  MSC.similarity (lit "Hello World") (lit " ?! ") = Ok (Num 0).
Proof.
  apply X7_against_empty_text.
  - vm_compute. repeat constructor; discriminate.
  - vm_compute. reflexivity.
Defined.

(** ** What [equalizeTexts] leaves to compare *)

(** X8: [equalizeTexts] returns two texts of equal word counts exactly when
    the counts were equal already, and then returns the texts unchanged;
    otherwise the text with more words is unchanged and the padded one
    ends up one word short of it. *)
Theorem X8_equalize_word_counts (text1 text2 : str) :
  let n1 := length (Py.split text1) in
  let n2 := length (Py.split text2) in
  let e := MSC.equalizeTexts text1 text2 in
  (length (Py.split (fst e)) = length (Py.split (snd e)) <-> n1 = n2)
  /\ (n1 = n2 -> e = (text1, text2))
  /\ ((n2 < n1)%nat ->
      fst e = text1 /\ length (Py.split (snd e)) = (n1 - 1)%nat)
  /\ ((n1 < n2)%nat ->
      snd e = text2 /\ length (Py.split (fst e)) = (n2 - 1)%nat).
Proof.
  intros n1 n2 e.
  destruct (equalizeTexts_word_counts text1 text2) as [H1 H2].
  fold n1 n2 e in H1, H2.
  assert (G1 : (1 <= n1)%nat).
  { subst n1. pose proof (split_not_nil text1).
    destruct (Py.split text1); [congruence|simpl; lia]. }
  assert (G2 : (1 <= n2)%nat).
  { subst n2. pose proof (split_not_nil text2).
    destruct (Py.split text2); [congruence|simpl; lia]. }
  assert (E : e = if (n2 <? n1)%nat
                  then (text1, text2 ++ Py.join [SPACE] (repeat [NUL] (n1 - n2)))
                  else (text1 ++ Py.join [SPACE] (repeat [NUL] (n2 - n1)), text2))
    by reflexivity.
  rewrite H1, H2. clear H1 H2.
  destruct (Nat.ltb_spec n1 n2), (Nat.ltb_spec n2 n1); try lia;
    repeat split; intros; try lia; rewrite E; try reflexivity.
  replace (n2 - n1)%nat with 0%nat by lia. simpl. now rewrite app_nil_r.
Qed.

Lemma X8_equalize_word_counts_witness :
  length (Py.split (snd (MSC.equalizeTexts (lit "a b c d") (lit "a"))))
  = 3%nat.
Proof.
  apply (proj1 (proj2 (proj2 (@X8_equalize_word_counts
                                (lit "a b c d") (lit "a"))))).
  vm_compute. lia.
Defined.

Lemma map_fst_combine A B (l1 : list A) (l2 : list B) :
  List.map fst (combine l1 l2) = firstn (length l2) l1.
Proof.
  revert l2. induction l1 as [|a l1 IH]; intros [|b l2]; simpl;
    try reflexivity.
  now rewrite IH.
Qed.

Lemma map_snd_combine A B (l1 : list A) (l2 : list B) :
  List.map snd (combine l1 l2) = firstn (length l1) l2.
Proof.
  revert l2. induction l1 as [|a l1 IH]; intros [|b l2]; simpl;
    try reflexivity.
  now rewrite IH.
Qed.

Lemma aligned_words_eq text1 text2 :
  aligned_words text1 text2
  = combine
      (Py.split (fst (MSC.equalizeTexts (MSC.clean text1) (MSC.clean text2))))
      (Py.split (snd (MSC.equalizeTexts (MSC.clean text1) (MSC.clean text2)))).
Proof. unfold aligned_words. now destruct (MSC.equalizeTexts _ _). Qed.

(** X9: when the cleaned [text1] has more words than the cleaned [text2],
    the words of [text1] that get compared are all but its last one: the
    last word has no effect on the score.  With equal counts every word of
    both texts is compared. *)
Theorem X9_last_word_dropped (text1 text2 : str) :
  let words1 := Py.split (MSC.clean text1) in
  let words2 := Py.split (MSC.clean text2) in
  ((length words2 < length words1)%nat ->
   List.map fst (aligned_words text1 text2) = removelast words1)
  /\ (length words1 = length words2 ->
      List.map fst (aligned_words text1 text2) = words1
      /\ List.map snd (aligned_words text1 text2) = words2).
Proof.
  intros words1 words2. rewrite aligned_words_eq.
  destruct (equalizeTexts_word_counts (MSC.clean text1) (MSC.clean text2))
    as [H1 H2].
  fold words1 words2 in H1, H2.
  rewrite map_fst_combine, map_snd_combine, H1, H2.
  unfold MSC.equalizeTexts. fold words1 words2.
  split.
  - intros L.
    destruct (Nat.ltb_spec (length words2) (length words1)); [|lia].
    cbn [fst]. fold words1.
    rewrite removelast_firstn_len. f_equal. lia.
  - intros E.
    destruct (Nat.ltb_spec (length words2) (length words1)); [lia|].
    destruct (Nat.ltb_spec (length words1) (length words2)); [lia|].
    cbn [fst snd]. rewrite E, Nat.sub_diag. cbn [repeat Py.join].
    rewrite app_nil_r. fold words1 words2.
    split; [rewrite <- E|]; apply firstn_all.
Qed.

Lemma X9_last_word_dropped_witness :
  List.map fst (aligned_words (lit "one two three") (lit "one"))
  = removelast (Py.split (MSC.clean (lit "one two three"))).
Proof.
  apply (proj1 (@X9_last_word_dropped (lit "one two three") (lit "one"))).
  vm_compute. lia.
Defined.

(** ** More on [clean] *)

(** X10: every character of a cleaned text is a lowercase ASCII letter, an
    ASCII digit or a space; in particular the padding character of
    [equalizeTexts] never occurs in it. *)
Theorem X10_clean_alphabet (text : str) :
  Forall (fun c => (97 <= c <= 122)%N \/ (48 <= c <= 57)%N \/ c = SPACE)
    (MSC.clean text)
  /\ ~ In NUL (MSC.clean text).
Proof.
  assert (H : Forall (fun c => (97 <= c <= 122)%N \/ (48 <= c <= 57)%N
                               \/ c = SPACE) (MSC.clean text)).
  { eapply Forall_impl; [|apply clean_kept]. intros c. apply kept_cases. }
  split; [exact H|].
  intros N. rewrite Forall_forall in H. specialize (H _ N).
  unfold NUL, SPACE in H. destruct H as [H|[H|H]]; [lia|lia|discriminate].
Qed.

Lemma collapse_idempotent s : Py.collapse (Py.collapse s) = Py.collapse s.
Proof.
  induction s as [|c s IH]; [reflexivity|].
  cbn [Py.collapse]. destruct (N.eqb_spec c SPACE) as [E|E].
  - destruct s as [|d s]; [subst; reflexivity|].
    destruct (N.eqb_spec d SPACE) as [E'|E']; [exact IH|].
    cbn [Py.collapse] in IH |- *.
    destruct (N.eqb_spec d SPACE) as [|_]; [contradiction|].
    destruct (N.eqb_spec c SPACE) as [_|]; [|contradiction].
    destruct (N.eqb_spec d SPACE) as [|_]; [contradiction|].
    f_equal. exact IH.
  - cbn [Py.collapse]. destruct (N.eqb_spec c SPACE) as [|_]; [contradiction|].
    now rewrite IH.
Qed.

Lemma lstrip_starts_clean s : starts_clean (Py.lstrip s).
Proof.
  induction s as [|c s IH]; [now left|].
  simpl. destruct (Py.isspace c) eqn:E; [exact IH|].
  right. now exists c, s.
Qed.

Lemma lstrip_fixed s : starts_clean s -> Py.lstrip s = s.
Proof.
  intros [->|(c & s' & -> & H)]; [reflexivity|]. simpl. now rewrite H.
Qed.

Lemma rstrip_ends_clean s : ends_clean (Py.rstrip s).
Proof.
  unfold Py.rstrip.
  destruct (lstrip_starts_clean (rev s)) as [->|(c & s' & -> & H)];
    [now left|].
  right. exists (rev s'), c. now split.
Qed.

Lemma rstrip_fixed s : ends_clean s -> Py.rstrip s = s.
Proof.
  intros [->|(s' & c & -> & H)]; [reflexivity|].
  unfold Py.rstrip. rewrite rev_app_distr. simpl. rewrite H.
  simpl. now rewrite rev_involutive.
Qed.

Lemma lstrip_snoc s c :
  Py.isspace c = false -> Py.lstrip (s ++ [c]) = Py.lstrip s ++ [c].
Proof.
  intros H. induction s as [|d s IH]; simpl; [now rewrite H|].
  destruct (Py.isspace d); [exact IH|reflexivity].
Qed.

Lemma rstrip_starts_clean s : starts_clean s -> starts_clean (Py.rstrip s).
Proof.
  intros [->|(c & s' & -> & H)]; [now left|].
  right. exists c, (rev (Py.lstrip (rev s'))). split; [|exact H].
  unfold Py.rstrip. simpl. rewrite lstrip_snoc by exact H.
  rewrite rev_app_distr. reflexivity.
Qed.

Lemma isspace_SPACE c : Py.isspace c = false -> c <> SPACE.
Proof. intros H ->. discriminate. Qed.

Lemma collapse_starts_clean s : starts_clean s -> starts_clean (Py.collapse s).
Proof.
  intros [->|(c & s' & -> & H)]; [now left|].
  right. exists c, (Py.collapse s'). split; [|exact H].
  cbn [Py.collapse]. apply isspace_SPACE in H.
  destruct (N.eqb_spec c SPACE); [contradiction|reflexivity].
Qed.

Lemma collapse_snoc s c :
  c <> SPACE -> exists w, Py.collapse (s ++ [c]) = w ++ [c].
Proof.
  intros H. induction s as [|d s [w IH]].
  - exists []. simpl. destruct (N.eqb_spec c SPACE); [contradiction|].
    reflexivity.
  - rewrite <- app_comm_cons. cbn [Py.collapse].
    destruct (d =? SPACE)%N.
    + destruct (s ++ [c]) as [|x y] eqn:E; [now destruct s|].
      destruct (x =? SPACE)%N.
      * exists w. exact IH.
      * exists (d :: w). now rewrite IH.
    + exists (d :: w). now rewrite IH.
Qed.

Lemma collapse_ends_clean s : ends_clean s -> ends_clean (Py.collapse s).
Proof.
  intros [->|(s' & c & -> & H)]; [now left|].
  destruct (collapse_snoc s' (isspace_SPACE H)) as [w E].
  right. now exists w, c.
Qed.

(** Stripping and collapsing once is enough. *)
Lemma strip_collapse_stable s :
  Py.collapse (Py.strip (Py.collapse (Py.strip s)))
  = Py.collapse (Py.strip s).
Proof.
  assert (B : starts_clean (Py.collapse (Py.strip s))).
  { apply collapse_starts_clean, rstrip_starts_clean, lstrip_starts_clean. }
  assert (E : ends_clean (Py.collapse (Py.strip s))).
  { apply collapse_ends_clean, rstrip_ends_clean. }
  unfold Py.strip at 1.
  rewrite (lstrip_fixed B), (rstrip_fixed E). apply collapse_idempotent.
Qed.

(** X11: a second pass of [clean] can still change a text, a third cannot:
    [clean] applied twice is stable. *)
Theorem X11_clean_stable_after_two (text : str) :
  MSC.clean (MSC.clean (MSC.clean text)) = MSC.clean (MSC.clean text).
Proof.
  rewrite (clean_twice text).
  rewrite clean_on_kept
    by (apply collapse_Forall, strip_Forall, clean_kept).
  apply strip_collapse_stable.
Qed.

(** X12: on a text made of lowercase letters, digits and spaces only,
    [clean] strips and collapses the spaces and nothing else, and cleaning
    its result again changes nothing. *)
Theorem X12_clean_idempotent_on_alphabet (text : str) :
  Forall (fun c => (97 <= c <= 122)%N \/ (48 <= c <= 57)%N \/ c = SPACE)
    text ->
  MSC.clean text = Py.collapse (Py.strip text)
  /\ MSC.clean (MSC.clean text) = MSC.clean text.
Proof.
  intros H.
  assert (K : Forall (fun c => kept c = true) text).
  { eapply Forall_impl; [|exact H]. intros c Hc. unfold kept.
    destruct Hc as [Hc|[Hc|Hc]].
    - replace (97 <=? c)%N with true by (symmetry; apply N.leb_le; lia).
      replace (c <=? 122)%N with true by (symmetry; apply N.leb_le; lia).
      reflexivity.
    - replace (48 <=? c)%N with true by (symmetry; apply N.leb_le; lia).
      replace (c <=? 57)%N with true by (symmetry; apply N.leb_le; lia).
      cbn [andb]. now rewrite orb_true_r.
    - subst. reflexivity. }
  split; [now apply clean_on_kept|].
  rewrite clean_twice, (clean_on_kept K). apply strip_collapse_stable.
Qed.

Lemma X12_clean_idempotent_on_alphabet_witness :
  MSC.clean (MSC.clean (lit "  a   b 42 ")) = MSC.clean (lit "  a   b 42 ").
Proof.
  apply X12_clean_idempotent_on_alphabet.
  apply Forall_impl with (P := fun c => kept c = true);
    [intros c; apply kept_cases|].
  repeat constructor.
Defined.

Lemma lower_char_other c :
  (c < 65 \/ 90 < c)%N -> (c < 192 \/ 222 < c \/ c = 215)%N ->
  c <> 304%N -> c <> 8490%N -> Py.lower_char c = [c].
Proof.
  intros H1 H2 H3 H4. unfold Py.lower_char.
  destruct (N.leb_spec 65 c), (N.leb_spec c 90); simpl; try lia.
  all: destruct (N.leb_spec 192 c), (N.leb_spec c 222),
         (N.eqb_spec c 215); simpl; try lia.
  all: destruct (N.eqb_spec c 304); try contradiction.
  all: destruct (N.eqb_spec c 8490); try contradiction.
  all: reflexivity.
Qed.

Lemma lower_char_lower c :
  Py.lower (Py.lower_char c) = Py.lower_char c.
Proof.
  unfold Py.lower. remember (Py.lower_char c) as l eqn:E.
  unfold Py.lower_char in E.
  destruct (N.leb_spec 65 c), (N.leb_spec c 90); cbn [andb] in E.
  1: { subst l. simpl. rewrite lower_char_other by lia. reflexivity. }
  all: destruct (N.leb_spec 192 c), (N.leb_spec c 222),
         (N.eqb_spec c 215); cbn [andb negb] in E.
  all: try (subst l; simpl; rewrite lower_char_other by lia; reflexivity).
  all: destruct (N.eqb_spec c 304); [subst l; reflexivity|].
  all: destruct (N.eqb_spec c 8490); [subst l; reflexivity|].
  all: subst l; simpl; rewrite lower_char_other by lia; reflexivity.
Qed.

Lemma lower_idempotent s : Py.lower (Py.lower s) = Py.lower s.
Proof.
  unfold Py.lower. induction s as [|c s IH]; [reflexivity|].
  simpl. rewrite flat_map_app, IH. f_equal. apply lower_char_lower.
Qed.

(** X13: [clean], and with it [similarity], ignores case: lowering a text
    before it is passed in changes nothing. *)
Theorem X13_case_insensitive (A B : str) :
  MSC.clean (Py.lower A) = MSC.clean A
  /\ MSC.similarity (Py.lower A) (Py.lower B) = MSC.similarity A B.
Proof.
  assert (H : forall T, MSC.clean (Py.lower T) = MSC.clean T).
  { intros T. unfold MSC.clean. now rewrite lower_idempotent. }
  split; [apply H|].
  unfold MSC.similarity. now rewrite !H.
Qed.

Lemma lstrip_blank s :
  Forall (fun c => Py.isspace c = true) s -> Py.lstrip s = [].
Proof.
  induction 1 as [|c s Hc _ IH]; [reflexivity|]. simpl. now rewrite Hc.
Qed.

Lemma isspace_cases c :
  Py.isspace c = true ->
  ((9 <= c <= 13) \/ (28 <= c <= 32) \/ c = 133 \/ c = 160 \/ c = 5760
   \/ (8192 <= c <= 8202) \/ c = 8232 \/ c = 8233 \/ c = 8239 \/ c = 8287
   \/ c = 12288)%N.
Proof.
  unfold Py.isspace. intros H.
  repeat (apply orb_true_iff in H as [H|H]);
    repeat match goal with
      | H : (_ && _)%bool = true |- _ => apply andb_true_iff in H as [? ?]
      | H : (_ <=? _)%N = true |- _ => apply N.leb_le in H
      | H : (_ =? _)%N = true |- _ => apply N.eqb_eq in H
      end; lia.
Qed.

(** X14: a text made of whitespace only (blanks, tabs, newlines, ...) is
    cleaned to the empty text. *)
Theorem X14_blank_text (text : str) :
  Forall (fun c => Py.isspace c = true) text -> MSC.clean text = [].
Proof.
  intros H. unfold MSC.clean.
  assert (L : Py.lower text = text).
  { apply flat_map_singleton. eapply Forall_impl; [|exact H].
    intros c Hc. apply isspace_cases in Hc.
    apply lower_char_other; lia. }
  assert (R1 : Py.replace E_ACUTE (lit "e") text = text).
  { apply flat_map_singleton. eapply Forall_impl; [|exact H].
    intros c Hc. apply isspace_cases in Hc. cbv beta.
    destruct (N.eqb_spec c E_ACUTE) as [E|E]; [|reflexivity].
    unfold E_ACUTE in E. lia. }
  assert (R2 : Py.replace E_GRAVE (lit "e") text = text).
  { apply flat_map_singleton. eapply Forall_impl; [|exact H].
    intros c Hc. apply isspace_cases in Hc. cbv beta.
    destruct (N.eqb_spec c E_GRAVE) as [E|E]; [|reflexivity].
    unfold E_GRAVE in E. lia. }
  rewrite L, R1, R2.
  assert (W : Forall (fun c => Py.isspace c = true)
                (Py.replace NEWLINE (lit " ") text)).
  { unfold Py.replace. clear L R1 R2.
    induction H as [|c s Hc _ IH]; [constructor|].
    simpl. apply Forall_app. split; [|exact IH].
    destruct (c =? NEWLINE)%N; repeat constructor. exact Hc. }
  unfold Py.strip. rewrite (lstrip_blank W). reflexivity.
Qed.

Lemma X14_blank_text_witness :
  MSC.clean [32; 9; 10; 160; 32]%N = [].
Proof.
  apply X14_blank_text. repeat constructor.
Defined.

(** ** More on [MSCMultiple.similarity] *)

Lemma map_combine_flip A B C (f : A -> B -> C) (g : B -> A -> C)
  (x : list A) (y : list B) :
  (forall a b, f a b = g b a) ->
  List.map (fun p => f (fst p) (snd p)) (combine x y)
  = List.map (fun p => g (fst p) (snd p)) (combine y x).
Proof.
  intros H. revert y.
  induction x as [|a x IH]; intros [|b y]; simpl; try reflexivity.
  now rewrite H, IH.
Qed.

(** X15: the multi-field comparison is symmetric in its two lists. *)
Theorem X15_multiple_symmetry (F1 F2 : list str) :
  MSCMultiple.similarity F1 F2 = MSCMultiple.similarity F2 F1.
Proof.
  rewrite !multiple_similarity_eq.
  rewrite (map_combine_flip text_score text_score F1 F2); [reflexivity|].
  intros a b. symmetry. apply text_score_swap.
Qed.

Lemma mean_one_value v : Np.mean [v] = v.
Proof. destruct v as [r|]; [apply mean_single|reflexivity]. Qed.

(** X16: on two lists of one field each, the multi-field comparison
    returns what [MSC.similarity] returns on the two fields. *)
Theorem X16_multiple_single_field (field1 field2 : str) :
  MSCMultiple.similarity [field1] [field2] = MSC.similarity field1 field2.
Proof.
  rewrite multiple_similarity_eq, similarity_eq.
  cbn [combine List.map fst snd]. now rewrite mean_one_value.
Qed.

Lemma text_score_same T :
  Forall (fun w => w <> []) (Py.split (MSC.clean T)) ->
  text_score T T = Num 1.
Proof.
  intros H. unfold text_score. apply mean_eq_1; [apply scores_unit|]. split.
  - intros N. apply map_eq_nil in N. now apply aligned_words_not_nil in N.
  - rewrite aligned_words_same, map_map, Forall_map. cbn [fst snd].
    eapply Forall_impl; [|exact H]. intros w Hw. cbv beta in Hw.
    rewrite word_diff_same. apply S_zeros.
    destruct w; [congruence|simpl; lia].
Qed.

(** X17: a non-empty list of fields, each of which cleans to non-empty
    words only, has multi-field similarity exactly [1.0] with itself. *)
Theorem X17_multiple_reflexivity (F : list str) :
  F <> [] ->
  Forall (fun T => Forall (fun w => w <> []) (Py.split (MSC.clean T))) F ->
  MSCMultiple.similarity F F = Ok (Num 1).
Proof.
  intros Hne H. rewrite multiple_similarity_eq. f_equal.
  apply mean_eq_1.
  - apply Forall_map, Forall_forall. intros p _. apply text_score_unit.
  - split.
    + intros N. apply map_eq_nil in N. destruct F; [congruence|discriminate].
    + rewrite Forall_map. apply Forall_forall. intros [a b] Hp.
      assert (a = b).
      { clear -Hp. induction F as [|x F IH]; [destruct Hp|].
        destruct Hp as [Hp|Hp]; [now inversion Hp|now apply IH]. }
      subst b. cbn [fst snd]. apply text_score_same.
      rewrite Forall_forall in H. apply H.
      now apply in_combine_l in Hp.
Qed.

Lemma X17_multiple_reflexivity_witness :
  MSCMultiple.similarity [lit "Oxford"; lit "england"]
    [lit "Oxford"; lit "england"] = Ok (Num 1).
Proof.
  apply X17_multiple_reflexivity; [discriminate|].
  vm_compute. repeat constructor; discriminate.
Defined.

(** X18: the multi-field comparison returns [nan] exactly when one of the
    two lists is empty or some pair of aligned fields scores [nan]. *)
Theorem X18_multiple_nan (F1 F2 : list str) :
  MSCMultiple.similarity F1 F2 = Ok NaN <->
  F1 = [] \/ F2 = []
  \/ exists p, In p (combine F1 F2)
               /\ MSC.similarity (fst p) (snd p) = Ok NaN.
Proof.
  rewrite multiple_similarity_eq. split.
  - intros H. assert (H' : forall v w : float64, Ok v = Ok w -> v = w)
      by now intros v w [= ->].
    apply H' in H. apply mean_eq_nan in H as [H|H].
    + apply map_eq_nil in H. destruct F1; [now left|].
      destruct F2; [right; now left|discriminate].
    + apply in_map_iff in H as (p & H & Hin). right. right.
      exists p. split; [exact Hin|]. now rewrite similarity_eq, H.
  - intros [->|[->|(p & Hin & H)]].
    + reflexivity.
    + now destruct F1.
    + f_equal. apply mean_nan, in_map_iff. exists p.
      split; [|exact Hin]. rewrite similarity_eq in H. now injection H.
Qed.

(** ** One more word at the end *)

Lemma split_one_word u :
  Forall (fun c => c <> SPACE) u -> Py.split u = [u].
Proof.
  induction 1 as [|c u Hc _ IH]; [reflexivity|].
  simpl. destruct (N.eqb_spec c SPACE); [contradiction|]. now rewrite IH.
Qed.

Lemma split_last_word t u :
  Forall (fun c => c <> SPACE) u ->
  exists init lst,
    Py.split t = init ++ [lst]
    /\ Py.split (t ++ u) = init ++ [lst ++ u]
    /\ Py.split (t ++ SPACE :: u) = init ++ [lst; u].
Proof.
  intros Hu. induction t as [|c t (init & lst & E1 & E2 & E3)].
  - exists [], []. cbn [app]. repeat split.
    + now apply split_one_word.
    + simpl. now rewrite split_one_word.
  - rewrite <- !app_comm_cons. cbn [Py.split].
    destruct (c =? SPACE)%N.
    + exists ([] :: init), lst. now rewrite E1, E2, E3.
    + rewrite E1, E2, E3. destruct init as [|i0 init].
      * exists [], (c :: lst). now repeat split.
      * exists ((c :: i0) :: init), lst. now repeat split.
Qed.

Lemma combine_append A B (a c : list A) (b d : list B) :
  length a = length b ->
  combine (a ++ c) (b ++ d) = combine a b ++ combine c d.
Proof.
  revert b. induction a as [|x a IH]; intros [|y b] H; simpl in *;
    try discriminate; [reflexivity|].
  now rewrite IH by lia.
Qed.

(** X19: when the cleaned first text is the cleaned second text, of
    non-empty words, followed by a space and one more word, the score is
    exactly [1.0]: the padding joins the last word of the second text, the
    added word is paired with nothing, and the difference is not seen. *)
Theorem X19_one_more_word (T1 T2 : str) (w : str) :
  Forall (fun c => c <> SPACE) w ->
  Forall (fun x => x <> []) (Py.split (MSC.clean T2)) ->
  MSC.clean T1 = MSC.clean T2 ++ SPACE :: w ->
  MSC.similarity T1 T2 = Ok (Num 1).
Proof.
  intros Hw Hne E. rewrite similarity_eq. unfold text_score. f_equal.
  apply mean_eq_1; [apply scores_unit|]. split.
  - intros N. apply map_eq_nil in N. now apply aligned_words_not_nil in N.
  - rewrite Forall_map. unfold aligned_words, MSC.equalizeTexts. rewrite E.
    destruct (split_last_word (MSC.clean T2) Hw) as (init & lst & E1 & _ & E3).
    assert (Hnul : Forall (fun c => c <> SPACE) [NUL])
      by (repeat constructor; discriminate).
    destruct (split_last_word (MSC.clean T2) Hnul)
      as (init' & lst' & E1' & E2' & _).
    rewrite E1 in E1'. apply app_inj_tail in E1' as [<- <-].
    rewrite E3, E1, !length_app. cbn [length].
    destruct (Nat.ltb_spec (length init + 1) (length init + 2)); [|lia].
    replace (length init + 2 - (length init + 1))%nat with 1%nat by lia.
    cbn [repeat Py.join]. rewrite E3, E2'.
    rewrite E1 in Hne. apply Forall_app in Hne as [Hi Hl].
    rewrite combine_firstn_r, firstn_app, !length_app. cbn [length].
    unfold str, char in *.
    rewrite firstn_all2 by lia.
    replace (length init + 1 - length init)%nat with 1%nat by lia.
    cbn [firstn]. rewrite combine_append by reflexivity.
    apply Forall_app. split.
    + apply Forall_forall. intros [a b] Hp.
      assert (a = b).
      { clear -Hp. induction init as [|x l IH]; [destruct Hp|].
        destruct Hp as [Hp|Hp]; [now inversion Hp|now apply IH]. }
      subst b. cbn [fst snd]. apply S_eq_1.
      rewrite Forall_forall in Hi. apply in_combine_l in Hp.
      specialize (Hi a Hp). rewrite word_diff_same. split.
      * intros N0. apply (f_equal (@length Z)) in N0.
        rewrite repeat_length in N0. destruct a; [congruence|discriminate].
      * apply Forall_forall. intros z Hz. now apply repeat_spec in Hz.
    + constructor; [|constructor]. cbn [fst snd]. apply S_eq_1. split.
      * intros N0. apply word_diff_eq_nil in N0 as [N0 _].
        exact (Forall_inv Hl N0).
      * rewrite word_diff_extension. apply Forall_app. split.
        -- apply Forall_forall. intros z Hz. now apply repeat_spec in Hz.
        -- repeat constructor.
Qed.

Lemma X19_one_more_word_witness :
  MSC.similarity (lit "Hello i teach physics") (lit "Hello i teach")
  = Ok (Num 1).
Proof.
  apply (@X19_one_more_word _ _ (lit "physics")).
  - repeat constructor; discriminate.
  - vm_compute. repeat constructor; discriminate.
  - vm_compute. reflexivity.
Defined.
